(** * A shallow embedding of src/src/blockchain.js (Transaction, Block, Blockchain)

    The JavaScript values the code handles are modelled explicitly:
    - numbers are integers extended with the IEEE special values [NaN],
      [Infinity] and [-Infinity] (fractional numbers, [-0] and precision loss
      beyond 2^53 are not modelled);
    - addresses are [null], [undefined] or strings;
    - [Date.now()] values are passed in as explicit arguments;
    - SHA-256 and the secp256k1 primitives of the [crypto] and [elliptic]
      modules are opaque functions (section variables);
    - exceptions and the non-termination of the proof-of-work loop are
      outcomes of a small state/exception monad ([OutOfFuel] stands for a
      call that has not returned after the given number of loop iterations). *)

From Stdlib Require Import String Ascii ZArith List Bool Lia.
From Stdlib Require Import DecimalString DecimalZ.
Import ListNotations.
Local Open Scope string_scope.
Local Open Scope list_scope.

Local Notation "a +++ b" := (String.append a b) (at level 60, right associativity).

(** ** JavaScript primitive values *)

Module JS.

(** A JS number: an integer, or one of the non-finite IEEE values. *)
Inductive number := Fin (z : Z) | NaN | PosInf | NegInf.

(** A JS value used as an address: [null], [undefined] or a string. *)
Inductive value := VNull | VUndef | VStr (s : string).

(** A JS primitive, the operand type of [+]. *)
Inductive prim := PNull | PUndef | PStr (s : string) | PNum (n : number).

Definition number_eqb (x y : number) : bool :=
  match x, y with
  | Fin a, Fin b => Z.eqb a b
  | NaN, NaN | PosInf, PosInf | NegInf, NegInf => true
  | _, _ => false
  end.

(** [x === y] on addresses. *)
Definition strict_eqb (x y : value) : bool :=
  match x, y with
  | VNull, VNull | VUndef, VUndef => true
  | VStr a, VStr b => String.eqb a b
  | _, _ => false
  end.

(** [!!x]: [null], [undefined] and [""] are falsy. *)
Definition truthy (x : value) : bool :=
  match x with
  | VNull | VUndef => false
  | VStr s => negb (String.eqb s EmptyString)
  end.

(** IEEE addition, subtraction and comparisons on the modelled numbers. *)
Definition num_add (x y : number) : number :=
  match x, y with
  | Fin a, Fin b => Fin (a + b)
  | NaN, _ | _, NaN => NaN
  | PosInf, NegInf | NegInf, PosInf => NaN
  | PosInf, _ | _, PosInf => PosInf
  | NegInf, _ | _, NegInf => NegInf
  end.

Definition num_neg (x : number) : number :=
  match x with
  | Fin a => Fin (- a)
  | NaN => NaN
  | PosInf => NegInf
  | NegInf => PosInf
  end.

Definition num_sub (x y : number) : number :=
  match x, y with
  | Fin a, Fin b => Fin (a - b)
  | NaN, _ | _, NaN => NaN
  | PosInf, PosInf | NegInf, NegInf => NaN
  | PosInf, _ | _, NegInf => PosInf
  | NegInf, _ | _, PosInf => NegInf
  end.

Definition num_lt (x y : number) : bool :=
  match x, y with
  | Fin a, Fin b => Z.ltb a b
  | NaN, _ | _, NaN => false
  | NegInf, NegInf => false
  | NegInf, _ => true
  | _, PosInf => negb (number_eqb x PosInf)
  | _, _ => false
  end.

Definition num_le (x y : number) : bool :=
  match x, y with
  | NaN, _ | _, NaN => false
  | _, _ => num_lt x y || number_eqb x y
  end.

(** [String(n)] for integers: the decimal notation. *)
Definition Z_to_string (z : Z) : string :=
  NilEmpty.string_of_int (Z.to_int z).

Definition number_to_string (x : number) : string :=
  match x with
  | Fin z => Z_to_string z
  | NaN => "NaN"
  | PosInf => "Infinity"
  | NegInf => "-Infinity"
  end.

(** ToNumber and ToString on primitives. *)
Definition to_number (p : prim) : number :=
  match p with
  | PNull => Fin 0
  | PUndef => NaN
  | PNum n => n
  | PStr _ => NaN (* never reached: [+] concatenates when a string is involved *)
  end.

Definition prim_to_string (p : prim) : string :=
  match p with
  | PNull => "null"
  | PUndef => "undefined"
  | PStr s => s
  | PNum n => number_to_string n
  end.

(** The binary [+] operator: concatenation if either side is a string,
    numeric addition otherwise. *)
Definition plus (a b : prim) : prim :=
  match a, b with
  | PStr _, _ | _, PStr _ => PStr (prim_to_string a +++ prim_to_string b)
  | _, _ => PNum (num_add (to_number a) (to_number b))
  end.

Definition prim_of_value (v : value) : prim :=
  match v with
  | VNull => PNull
  | VUndef => PUndef
  | VStr s => PStr s
  end.

(** ** JSON.stringify *)

Definition hex_digit (n : nat) : ascii :=
  ascii_of_nat (if Nat.ltb n 10 then 48 + n else 87 + n).

(** The double-quote character. *)
Definition dq : string := String (ascii_of_nat 34) EmptyString.

Definition escape_char (c : ascii) : string :=
  let n := nat_of_ascii c in
  if Nat.eqb n 34 then String (ascii_of_nat 92) dq
  else if Nat.eqb n 92 then "\\"
  else if Nat.eqb n 8 then "\b"
  else if Nat.eqb n 9 then "\t"
  else if Nat.eqb n 10 then "\n"
  else if Nat.eqb n 12 then "\f"
  else if Nat.eqb n 13 then "\r"
  else if Nat.ltb n 32 then
    "\u00" +++ String (hex_digit (n / 16)) (String (hex_digit (n mod 16)) EmptyString)
  else String c EmptyString.

Fixpoint escape (s : string) : string :=
  match s with
  | EmptyString => EmptyString
  | String c s' => escape_char c +++ escape s'
  end.

Definition quote (s : string) : string := dq +++ escape s +++ dq.

(** [JSON.stringify] of a number: non-finite numbers become [null]. *)
Definition json_number (x : number) : string :=
  match x with
  | Fin z => Z_to_string z
  | _ => "null"
  end.

(** JSON of a property value; [None] when the property is skipped
    ([undefined]). *)
Definition json_prim (p : prim) : option string :=
  match p with
  | PNull => Some "null"
  | PUndef => None
  | PStr s => Some (quote s)
  | PNum n => Some (json_number n)
  end.

Fixpoint join (sep : string) (l : list string) : string :=
  match l with
  | [] => EmptyString
  | [x] => x
  | x :: l' => x +++ sep +++ join sep l'
  end.

(** One property of an object: skipped when its value is [undefined]. *)
Definition field_json (f : string * option string) : list string :=
  let '(k, v) := f in
  match v with
  | Some j => [quote k +++ ":" +++ j]
  | None => []
  end.

Definition json_object (fields : list (string * option string)) : string :=
  "{" +++ join "," (flat_map field_json fields) +++ "}".

Definition json_array (items : list string) : string :=
  "[" +++ join "," items +++ "]".

End JS.
Import JS.

(** ** Exceptions, fuel and the state/exception monad *)

(** A thrown JS exception: an [Error] with its message, or a [TypeError]
    raised by the runtime. *)
Inductive exn := Error (message : string) | TypeError.

(** How a call ends: it returns, it throws, or it is still running after
    the loop iterations granted by the fuel. *)
Inductive outcome (A : Type) := Ok (a : A) | Throw (e : exn) | OutOfFuel.
Arguments Ok {A} a.
Arguments Throw {A} e.
Arguments OutOfFuel {A}.

Definition obind {A B} (m : outcome A) (k : A -> outcome B) : outcome B :=
  match m with
  | Ok a => k a
  | Throw e => Throw e
  | OutOfFuel => OutOfFuel
  end.

Notation "x <-? m ;; k" := (obind m (fun x => k))
  (at level 61, m at next level, right associativity).

(** A method on a mutable object: the object's state is threaded through,
    and survives exceptions in the state it had when the exception was
    raised. *)
Definition ST (S A : Type) := S -> S * outcome A.

Definition ret {S A} (a : A) : ST S A := fun s => (s, Ok a).

Definition bind {S A B} (m : ST S A) (k : A -> ST S B) : ST S B :=
  fun s =>
    match m s with
    | (s', Ok a) => k a s'
    | (s', Throw e) => (s', Throw e)
    | (s', OutOfFuel) => (s', OutOfFuel)
    end.

Definition throw {S A} (e : exn) : ST S A := fun s => (s, Throw e).
Definition get {S} : ST S S := fun s => (s, Ok s).
Definition put {S} (s : S) : ST S unit := fun _ => (s, Ok tt).

Definition lift {S A} (m : outcome A) : ST S A :=
  fun s =>
    match m with
    | Ok a => (s, Ok a)
    | Throw e => (s, Throw e)
    | OutOfFuel => (s, OutOfFuel)
    end.

Notation "x <- m ;; k" := (bind m (fun x => k))
  (at level 61, m at next level, right associativity).

(** ** The external cryptographic capabilities *)

(** [sha256 s] is [crypto.createHash('sha256').update(s).digest('hex')];
    [ecGetPublic k] is [getPublic('hex')] of the key pair of private key [k];
    [ecSign k m] is [k.sign(m).toDER('hex')]; [ecVerify a m sig] is
    [ec.keyFromPublic(a, 'hex').verify(m, sig)]. *)
Class Crypto := {
  sha256 : string -> string;
  ecGetPublic : string -> string;
  ecSign : string -> string -> string;
  ecVerify : value -> string -> string -> bool
}.

(** ** Transaction *)

Module Transaction.

Record t := mk {
  fromAddress : value;
  toAddress : value;
  amount : number;
  timestamp : Z;
  signature : option string  (* [None]: the property was never set *)
}.

(** [new Transaction(fromAddress, toAddress, amount)] at time [now]. *)
Definition new (fromAddress toAddress : value) (amount : number) (now : Z) : t :=
  mk fromAddress toAddress amount now None.

Definition set_signature (sig : string) (tx : t) : t :=
  mk (fromAddress tx) (toAddress tx) (amount tx) (timestamp tx) (Some sig).

Definition set_amount (a : number) (tx : t) : t :=
  mk (fromAddress tx) (toAddress tx) a (timestamp tx) (signature tx).

(** [JSON.stringify(tx)]: properties in insertion order, [undefined] ones
    skipped. *)
Definition json (tx : t) : string :=
  json_object [("fromAddress", json_prim (prim_of_value (fromAddress tx)));
               ("toAddress", json_prim (prim_of_value (toAddress tx)));
               ("amount", Some (json_number (amount tx)));
               ("timestamp", Some (Z_to_string (timestamp tx)));
               ("signature", option_map quote (signature tx))].

Section Methods.
Context `{Crypto}.

(** [calculateHash()]: [update] of a non-string argument throws. *)
Definition calculateHash (tx : t) : outcome string :=
  match plus (plus (plus (prim_of_value (fromAddress tx)) (prim_of_value (toAddress tx)))
                   (PNum (amount tx)))
             (PNum (Fin (timestamp tx))) with
  | PStr s => Ok (sha256 s)
  | _ => Throw TypeError
  end.

(** [signTransaction(signingKey)], the key pair given by its private key. *)
Definition signTransaction (signingKey : string) : ST t unit :=
  tx <- get ;;
  if negb (strict_eqb (VStr (ecGetPublic signingKey)) (fromAddress tx))
  then throw (Error "You cannot sign transactions for other wallets!")
  else
    hashTx <- lift (calculateHash tx) ;;
    put (set_signature (ecSign signingKey hashTx) tx).

(** [isValid()]. *)
Definition isValid (tx : t) : outcome bool :=
  match fromAddress tx with
  | VNull => Ok true
  | _ =>
    match signature tx with
    | None => Throw (Error "No signature in this transaction")
    | Some sig =>
      if String.eqb sig EmptyString
      then Throw (Error "No signature in this transaction")
      else h <-? calculateHash tx ;; Ok (ecVerify (fromAddress tx) h sig)
    end
  end.

End Methods.
End Transaction.

(** ** Block *)

Module Block.

(** The value of [transactions]: an array of transactions, or the string
    the genesis block is built with. *)
Inductive txs := TxArray (l : list Transaction.t) | TxString (s : string).

Record t := mk {
  previousHash : string;
  timestamp : prim;
  transactions : txs;
  nonce : nat;
  hash : string
}.

Definition set_nonce (n : nat) (b : t) : t :=
  mk (previousHash b) (timestamp b) (transactions b) n (hash b).

Definition set_hash (h : string) (b : t) : t :=
  mk (previousHash b) (timestamp b) (transactions b) (nonce b) h.

Definition set_transactions (l : txs) (b : t) : t :=
  mk (previousHash b) (timestamp b) l (nonce b) (hash b).

Definition json_txs (l : txs) : string :=
  match l with
  | TxArray l => json_array (map Transaction.json l)
  | TxString s => quote s
  end.

(** [JSON.stringify(block)]. *)
Definition json (b : t) : string :=
  json_object [("previousHash", Some (quote (previousHash b)));
               ("timestamp", json_prim (timestamp b));
               ("transactions", Some (json_txs (transactions b)));
               ("nonce", Some (Z_to_string (Z.of_nat (nonce b))));
               ("hash", Some (quote (hash b)))].

(** [Array(difficulty + 1).join('0')]. *)
Fixpoint zeros (d : nat) : string :=
  match d with
  | O => EmptyString
  | S d' => String "0" (zeros d')
  end.

Section Methods.
Context `{Crypto}.

(** [calculateHash()]: [previousHash] is a string, so the [+] chain
    concatenates. *)
Definition calculateHash (b : t) : string :=
  sha256 (previousHash b +++ prim_to_string (timestamp b)
          +++ json_txs (transactions b) +++ Z_to_string (Z.of_nat (nonce b))).

(** [new Block(timestamp, transactions, previousHash)]. *)
Definition new (timestamp : prim) (transactions : txs) (previousHash : string) : t :=
  let b := mk previousHash timestamp transactions 0 EmptyString in
  set_hash (calculateHash b) b.

(** [mineBlock(difficulty)]: the [while] loop, one unit of fuel per test of
    its condition. *)
Fixpoint mineBlock (difficulty : nat) (fuel : nat) (b : t) : outcome t :=
  match fuel with
  | O => OutOfFuel
  | S fuel' =>
    if String.eqb (substring 0 difficulty (hash b)) (zeros difficulty)
    then Ok b
    else
      let b1 := set_nonce (S (nonce b)) b in
      mineBlock difficulty fuel' (set_hash (calculateHash b1) b1)
  end.

Fixpoint validAll (l : list Transaction.t) : outcome bool :=
  match l with
  | [] => Ok true
  | tx :: l' =>
    v <-? Transaction.isValid tx ;;
    if v then validAll l' else Ok false
  end.

(** [hasValidTransactions()]: iterating a string yields characters, which
    have no [isValid] method. *)
Definition hasValidTransactions (b : t) : outcome bool :=
  match transactions b with
  | TxArray l => validAll l
  | TxString EmptyString => Ok true
  | TxString _ => Throw TypeError
  end.

End Methods.
End Block.

(** ** Blockchain *)

Module Blockchain.

Record t := mk {
  chain : list Block.t;
  difficulty : nat;
  pendingTransactions : list Transaction.t;
  miningReward : number
}.

Definition set_chain (c : list Block.t) (bc : t) : t :=
  mk c (difficulty bc) (pendingTransactions bc) (miningReward bc).

Definition set_pendingTransactions (p : list Transaction.t) (bc : t) : t :=
  mk (chain bc) (difficulty bc) p (miningReward bc).

(** One element of [for (const trans of block.transactions)]: a transaction,
    or a character of the genesis string, whose [fromAddress], [toAddress]
    are [undefined] and whose [amount], [undefined], reads as [NaN] in
    arithmetic. *)
Inductive item := ITx (tx : Transaction.t) | IChar (c : ascii).

Definition item_from (i : item) : value :=
  match i with ITx tx => Transaction.fromAddress tx | IChar _ => VUndef end.

Definition item_to (i : item) : value :=
  match i with ITx tx => Transaction.toAddress tx | IChar _ => VUndef end.

Definition item_amount (i : item) : number :=
  match i with ITx tx => Transaction.amount tx | IChar _ => NaN end.

Definition items (b : Block.t) : list item :=
  match Block.transactions b with
  | Block.TxArray l => map ITx l
  | Block.TxString s => map IChar (list_ascii_of_string s)
  end.

Definition getLatestBlock (bc : t) : option Block.t :=
  nth_error (chain bc) (length (chain bc) - 1).

(** The body of the inner loop of [getBalanceOfAddress]. *)
Definition balance_step (address : value) (balance : number) (trans : item) : number :=
  let balance := if strict_eqb (item_from trans) address
                 then num_sub balance (item_amount trans) else balance in
  if strict_eqb (item_to trans) address
  then num_add balance (item_amount trans) else balance.

(** [getBalanceOfAddress(address)]. *)
Definition getBalanceOfAddress (bc : t) (address : value) : number :=
  fold_left (fun balance block => fold_left (balance_step address) (items block) balance)
            (chain bc) (Fin 0).

Section Methods.
Context `{Crypto}.

Definition createGenesisBlock : Block.t :=
  Block.new (PStr "01/01/2022") (Block.TxString "Genesis block") "0".

(** [new Blockchain()]. *)
Definition new : t := mk [createGenesisBlock] 2 [] (Fin 100).

(** [minePendingTransactions(miningRewardAddress)]; [now_tx] and [now_block]
    are the two [Date.now()] readings, [fuel] bounds the mining loop. *)
Definition minePendingTransactions (miningRewardAddress : value) (now_tx now_block : Z)
    (fuel : nat) : ST t unit :=
  bc <- get ;;
  let rewardTx := Transaction.new VNull miningRewardAddress (miningReward bc) now_tx in
  _ <- put (set_pendingTransactions (pendingTransactions bc ++ [rewardTx]) bc) ;;
  bc <- get ;;
  match getLatestBlock bc with
  | None => throw TypeError  (* [undefined.hash] *)
  | Some latest =>
    let block := Block.new (PNum (Fin now_block)) (Block.TxArray (pendingTransactions bc))
                           (Block.hash latest) in
    block <- lift (Block.mineBlock (difficulty bc) fuel block) ;;
    _ <- put (set_chain (chain bc ++ [block]) bc) ;;
    bc <- get ;;
    put (set_pendingTransactions [] bc)
  end.

(** [addTransaction(transaction)]. *)
Definition addTransaction (transaction : Transaction.t) : ST t unit :=
  if negb (truthy (Transaction.fromAddress transaction))
     || negb (truthy (Transaction.toAddress transaction))
  then throw (Error "Transaction must include from and to address")
  else
    v <- lift (Transaction.isValid transaction) ;;
    if negb v then throw (Error "Cannot add invalid transaction to chain")
    else if num_le (Transaction.amount transaction) (Fin 0)
    then throw (Error "Transaction amount should be higher than 0")
    else
      bc <- get ;;
      if num_lt (getBalanceOfAddress bc (Transaction.fromAddress transaction))
                (Transaction.amount transaction)
      then throw (Error "Not enough balance")
      else put (set_pendingTransactions (pendingTransactions bc ++ [transaction]) bc).

(** The [for] loop of [isChainValid], over the pairs
    [(chain[i-1], chain[i])] for [i >= 1]. *)
Fixpoint checkBlocks (previousBlock : Block.t) (rest : list Block.t) : outcome bool :=
  match rest with
  | [] => Ok true
  | currentBlock :: rest' =>
    if negb (String.eqb (Block.hash previousBlock) (Block.previousHash currentBlock))
    then Ok false
    else
      v <-? Block.hasValidTransactions currentBlock ;;
      if negb v then Ok false
      else if negb (String.eqb (Block.hash currentBlock) (Block.calculateHash currentBlock))
      then Ok false
      else checkBlocks currentBlock rest'
  end.

(** [isChainValid()]; [JSON.stringify(undefined)] is not a string, so an
    empty chain fails the genesis comparison. *)
Definition isChainValid (bc : t) : outcome bool :=
  let realGenesis := Block.json createGenesisBlock in
  match chain bc with
  | [] => Ok false
  | b0 :: rest =>
    if negb (String.eqb realGenesis (Block.json b0)) then Ok false
    else checkBlocks b0 rest
  end.

End Methods.
End Blockchain.

(** ** A concrete instance of the cryptographic capabilities

    Used only to evaluate the definitions on concrete inputs: the hash is the
    identity (so it is collision-free), the public key of [k] is ["pub" ++ k],
    and a signature is the private key followed by [":"] and the message. *)
Definition identityCrypto : Crypto := {|
  sha256 := fun s => s;
  ecGetPublic := fun k => "pub" +++ k;
  ecSign := fun k m => k +++ ":" +++ m;
  ecVerify := fun a m sig =>
    match a with
    | VStr p => String.eqb ("pub" +++ sig) (p +++ ":" +++ m)
    | _ => false
    end
|}.

(** A block built by the constructor, whose transaction list was then
    replaced without updating [hash]. *)
Definition staleBlock : Block.t :=
  Block.set_transactions (Block.TxArray [])
    (@Block.new identityCrypto (PNum (Fin 7)) (Block.TxString "x") "ab").

(** A freshly built block whose hash already starts with two zeros. *)
Definition easyBlock : Block.t :=
  @Block.new identityCrypto (PNum (Fin 7)) (Block.TxArray []) "00".

(** A transaction whose [fromAddress] is [undefined] (for instance built
    as [new Transaction(undefined, 'B', 5)]), never signed. *)
Definition undefSenderTx : Transaction.t :=
  Transaction.new VUndef (VStr "B") (Fin 5) 1.

(** A transfer of 60 from the wallet of private key ["k"] to [to], created
    at time [now]. *)
Definition transferTx (to : string) (now : Z) : Transaction.t :=
  Transaction.new (VStr "pubk") (VStr to) (Fin 60) now.

(** ** The balance as the spec words it

    The sum, from zero and in chain order, of [-amount] for each element of a
    block's [transactions] whose [fromAddress] is the address and of
    [+amount] for each whose [toAddress] is. [balance_spec] ranges over every
    element the code's [for ... of] visits (the characters of the genesis
    string included); [balance_spec_txs] over the transaction arrays only. *)
Definition balance_terms (address : value) (l : list Blockchain.item) : list number :=
  flat_map (fun it =>
              (if strict_eqb (Blockchain.item_from it) address
               then [num_neg (Blockchain.item_amount it)] else []) ++
              (if strict_eqb (Blockchain.item_to it) address
               then [Blockchain.item_amount it] else [])) l.

Definition balance_spec (bc : Blockchain.t) (address : value) : number :=
  fold_left num_add
    (balance_terms address (flat_map Blockchain.items (Blockchain.chain bc))) (Fin 0).

Definition block_transactions (b : Block.t) : list Transaction.t :=
  match Block.transactions b with
  | Block.TxArray l => l
  | Block.TxString _ => []
  end.

Definition balance_spec_txs (bc : Blockchain.t) (address : value) : number :=
  fold_left num_add
    (balance_terms address
       (map Blockchain.ITx (flat_map block_transactions (Blockchain.chain bc)))) (Fin 0).

(** The state after [new Blockchain()] and one
    [minePendingTransactions('pubk')], the wallet of private key ["k"]. *)
Definition minedState : Blockchain.t :=
  fst (@Blockchain.minePendingTransactions identityCrypto (VStr "pubk") 1 2 1
         (@Blockchain.new identityCrypto)).

(** ** States reachable through the public API

    [reachable bc ms]: [bc] is obtained from [new Blockchain()] by calls of
    [addTransaction] and [minePendingTransactions] that returned or threw
    (the queries do not change the state); [ms] lists the miner addresses of
    the calls of [minePendingTransactions] that returned, in order. *)
Section Reachable.
Context `{Crypto}.

Inductive reachable : Blockchain.t -> list value -> Prop :=
| reachable_new : reachable Blockchain.new []
| reachable_add (bc bc' : Blockchain.t) (ms : list value) (tx : Transaction.t)
    (r : outcome unit) :
    reachable bc ms -> Blockchain.addTransaction tx bc = (bc', r) -> reachable bc' ms
| reachable_mine (bc bc' : Blockchain.t) (ms : list value) (m : value)
    (now_tx now_block : Z) (fuel : nat) :
    reachable bc ms ->
    Blockchain.minePendingTransactions m now_tx now_block fuel bc = (bc', Ok tt) ->
    reachable bc' (ms ++ [m])
| reachable_mine_throw (bc bc' : Blockchain.t) (ms : list value) (m : value)
    (now_tx now_block : Z) (fuel : nat) (e : exn) :
    reachable bc ms ->
    Blockchain.minePendingTransactions m now_tx now_block fuel bc = (bc', Throw e) ->
    reachable bc' ms.

End Reachable.

(** The shape of a mined block: the transactions added to the pool, none
    with a [null] sender, then the reward for [m]. *)
Definition rewardShaped (reward : number) (blk : Block.t) (m : value) : Prop :=
  exists pre now_tx,
    Block.transactions blk =
      Block.TxArray (pre ++ [Transaction.new VNull m reward now_tx]) /\
    Forall (fun tx => Transaction.fromAddress tx <> VNull) pre.

(** The invariant behind claim C10: the reward is 100, every mined block
    has the reward shape for its miner, and no pending transaction has a
    falsy sender. *)
Section RewardInvariant.
Context `{Crypto}.

Definition reward_invariant (bc : Blockchain.t) (ms : list value) : Prop :=
  Blockchain.miningReward bc = Fin 100 /\
  (exists blocks,
     Blockchain.chain bc = Blockchain.createGenesisBlock :: blocks /\
     Forall2 (rewardShaped (Fin 100)) blocks ms) /\
  Forall (fun tx => truthy (Transaction.fromAddress tx) = true)
         (Blockchain.pendingTransactions bc).

End RewardInvariant.

(** The three checks [isChainValid] makes on [chain[i]], with [prev] =
    [chain[i-1]]. *)
Section BlockOk.
Context `{Crypto}.

Definition block_ok (prev cur : Block.t) : Prop :=
  Block.hash prev = Block.previousHash cur /\
  Block.hasValidTransactions cur = Ok true /\
  Block.hash cur = Block.calculateHash cur.

End BlockOk.

(** A chain whose block 1 holds a transaction with a sender and no
    signature. *)
Definition unsignedChain : Blockchain.t :=
  let g := @Blockchain.createGenesisBlock identityCrypto in
  Blockchain.mk
    [g; @Block.new identityCrypto (PNum (Fin 2))
          (Block.TxArray [Transaction.new (VStr "A") (VStr "B") (Fin 5) 1]) (Block.hash g)]
    2 [] (Fin 100).

(** Claim C2: mutating the [amount] of stored transactions. One transaction
    object may be stored in several places, so each stored occurrence either
    keeps its value or takes a new amount. *)
Definition amount_tamper (t t' : Transaction.t) : Prop :=
  t' = t \/ exists v, t' = Transaction.set_amount v t.

Definition block_tamper (b b' : Block.t) : Prop :=
  b' = b \/
  exists l l', Block.transactions b = Block.TxArray l /\
               b' = Block.set_transactions (Block.TxArray l') b /\
               Forall2 amount_tamper l l'.

(** A block pair in which some transaction [t] got an amount [v] whose JSON
    differs from that of the old amount. *)
Definition amount_changed (bb : Block.t * Block.t) : Prop :=
  exists l l' t v,
    Block.transactions (fst bb) = Block.TxArray l /\
    Block.transactions (snd bb) = Block.TxArray l' /\
    In (t, Transaction.set_amount v t) (combine l l') /\
    json_number v <> json_number (Transaction.amount t).

(** No comma in a string: the JSON of a number has none. *)
Fixpoint comma_free (s : string) : bool :=
  match s with
  | EmptyString => true
  | String c s' => negb (Ascii.eqb c ",") && comma_free s'
  end.

(** A chain whose block 1 holds a transaction with no sender and a [NaN]
    amount, and the same chain after its amount became [Infinity]. *)
Definition nanBlock (a : number) : Block.t :=
  let g := @Blockchain.createGenesisBlock identityCrypto in
  Block.set_transactions (Block.TxArray [Transaction.new VNull (VStr "A") a 1])
    (@Block.new identityCrypto (PNum (Fin 2))
       (Block.TxArray [Transaction.new VNull (VStr "A") NaN 1]) (Block.hash g)).

Definition nanChain (a : number) : Blockchain.t :=
  Blockchain.mk [@Blockchain.createGenesisBlock identityCrypto; nanBlock a] 2 [] (Fin 100).

(** The block mined by [minedState], its reward transaction, and the same
    block after the reward's amount became 1000. *)
Definition minedBlock : Block.t :=
  nth 1 (Blockchain.chain minedState) (@Blockchain.createGenesisBlock identityCrypto).

Definition minedReward : Transaction.t := Transaction.new VNull (VStr "pubk") (Fin 100) 1.

Definition tamperedBlock : Block.t :=
  Block.set_transactions
    (Block.TxArray [Transaction.set_amount (Fin 1000) minedReward]) minedBlock.

(** ** The wallet query and the example driver *)

(** [getAllTransactionsForWallet(address)]: the elements, transactions or
    characters of the genesis string, whose sender or recipient is
    [address], pushed in chain order. *)
Definition getAllTransactionsForWallet (bc : Blockchain.t) (address : value)
    : list Blockchain.item :=
  fold_left (fun txs block =>
               fold_left (fun txs tx =>
                            if strict_eqb (Blockchain.item_from tx) address
                               || strict_eqb (Blockchain.item_to tx) address
                            then txs ++ [tx] else txs)
                         (Blockchain.items block) txs)
            (Blockchain.chain bc) [].

(** The test of [getAllTransactionsForWallet] on one element. *)
Definition wallet_item (address : value) (it : Blockchain.item) : bool :=
  strict_eqb (Blockchain.item_from it) address || strict_eqb (Blockchain.item_to it) address.

Section Driver.
Context `{Crypto}.

(** src/unnamed/part_001, the example driver, on the key pair of private key
    [privateKey]; [t1], ..., [t8] are the [Date.now()] readings in program
    order and [fuel] bounds each mining loop. When the program runs to its
    end, the result is the list of lines it prints with [console.log] (the
    [console.debug] output of the library is not modelled); an exception
    ends the program. *)
Definition main_body (privateKey : string) (t1 t2 t3 t4 t5 t6 t7 t8 : Z) (fuel : nat)
    : ST Blockchain.t (list string) :=
  let myWalletAddress := VStr (ecGetPublic privateKey) in
  _ <- Blockchain.minePendingTransactions myWalletAddress t1 t2 fuel ;;
  let tx1 := Transaction.new myWalletAddress (VStr "address2") (Fin 100) t3 in
  let (tx1, r1) := Transaction.signTransaction privateKey tx1 in
  _ <- lift r1 ;;
  _ <- Blockchain.addTransaction tx1 ;;
  _ <- Blockchain.minePendingTransactions myWalletAddress t4 t5 fuel ;;
  let tx2 := Transaction.new myWalletAddress (VStr "address3") (Fin 50) t6 in
  let (tx2, r2) := Transaction.signTransaction privateKey tx2 in
  _ <- lift r2 ;;
  _ <- Blockchain.addTransaction tx2 ;;
  _ <- Blockchain.minePendingTransactions myWalletAddress t7 t8 fuel ;;
  bc <- get ;;
  let b1 := Blockchain.getBalanceOfAddress bc myWalletAddress in
  let b2 := Blockchain.getBalanceOfAddress bc (VStr "address2") in
  let b3 := Blockchain.getBalanceOfAddress bc (VStr "address3") in
  valid <- lift (Blockchain.isChainValid bc) ;;
  ret [EmptyString;
       "Balance of myWalletAddress is " +++ number_to_string b1;
       "Balance of address2 is " +++ number_to_string b2;
       "Balance of address3 is " +++ number_to_string b3;
       EmptyString;
       "Blockchain valid? " +++ (if valid then "Yes" else "No")].

(** The program starts from [new Blockchain()]. *)
Definition main (privateKey : string) (t1 t2 t3 t4 t5 t6 t7 t8 : Z) (fuel : nat)
    : Blockchain.t * outcome (list string) :=
  main_body privateKey t1 t2 t3 t4 t5 t6 t7 t8 fuel Blockchain.new.

End Driver.

(** Inputs for the further properties. Two transactions of wallet ["pubk"]
    whose [toAddress + amount + timestamp] strings coincide, carrying the
    signature of the first; an unsigned transfer; a signed transfer of
    [NaN]. *)
Definition concatTxA : Transaction.t :=
  Transaction.set_signature "k:pubkaddr151"
    (Transaction.new (VStr "pubk") (VStr "addr1") (Fin 5) 1).

Definition concatTxB : Transaction.t :=
  Transaction.set_signature "k:pubkaddr151"
    (Transaction.new (VStr "pubk") (VStr "addr") (Fin 15) 1).

Definition plainTx : Transaction.t :=
  Transaction.new (VStr "pubk") (VStr "B") (Fin 1) 1.

Definition nanTx : Transaction.t :=
  Transaction.set_signature "k:pubkBNaN1"
    (Transaction.new (VStr "pubk") (VStr "B") NaN 1).

(** A digest that reverses its input: the hash of a block then starts with
    the last digit of its nonce, and mining at difficulty 1 has to search. *)
Fixpoint string_rev (s : string) : string :=
  match s with
  | EmptyString => EmptyString
  | String c s' => string_rev s' +++ String c EmptyString
  end.

Definition reverseCrypto : Crypto := {|
  sha256 := string_rev;
  ecGetPublic := fun k => "pub" +++ k;
  ecSign := fun k m => k +++ ":" +++ m;
  ecVerify := fun _ _ _ => false
|}.

(** A block at nonce 1 with its hash up to date, and the block mining it at
    difficulty 1 returns. *)
Definition nonceBlock : Block.t :=
  let b := Block.set_nonce 1
             (@Block.new reverseCrypto (PNum (Fin 2)) (Block.TxArray []) "0") in
  Block.set_hash (@Block.calculateHash reverseCrypto b) b.

Definition nonceMined : Block.t :=
  match @Block.mineBlock reverseCrypto 1 20 nonceBlock with
  | Ok b => b
  | _ => nonceBlock
  end.

Section ChainInvariantDef.
Context `{Crypto}.

(** The invariant of the states reachable through the API: the chain is the
    genesis block followed by blocks the loop of [isChainValid] accepts, and
    every pending transaction is valid. *)
Definition chain_invariant (bc : Blockchain.t) : Prop :=
  (exists rest, Blockchain.chain bc = Blockchain.createGenesisBlock :: rest /\
                Blockchain.checkBlocks Blockchain.createGenesisBlock rest = Ok true) /\
  Forall (fun tx => Transaction.isValid tx = Ok true) (Blockchain.pendingTransactions bc).

End ChainInvariantDef.

(** * Proofs *)

Section Proofs.
Context `{CR : Crypto}.

Lemma substring_zeros (d : nat) (s : string) :
  substring 0 d s = Block.zeros d ->
  d <= String.length s /\ (forall k, k < d -> String.get k s = Some "0"%char).
Proof.
  revert s; induction d as [|d IH]; intros s Hs.
  - split; [lia | intros k Hk; lia].
  - destruct s as [|c s']; simpl in Hs; [discriminate|].
    injection Hs as -> Hs.
    destruct (IH s' Hs) as [Hlen Hget].
    split; [simpl; lia|].
    intros [|k] Hk; simpl; [reflexivity|].
    apply Hget; lia.
Qed.

Lemma calculateHash_set_hash (h : string) (b : Block.t) :
  Block.calculateHash (Block.set_hash h b) = Block.calculateHash b.
Proof. reflexivity. Qed.

(** Mining only changes [nonce] and [hash]. *)
Lemma mineBlock_fields (d fuel : nat) (b b' : Block.t) :
  Block.mineBlock d fuel b = Ok b' ->
  Block.previousHash b' = Block.previousHash b /\
  Block.timestamp b' = Block.timestamp b /\
  Block.transactions b' = Block.transactions b.
Proof.
  revert b; induction fuel as [|fuel IH]; intros b Hm; simpl in Hm; [discriminate|].
  destruct (String.eqb _ _).
  - injection Hm as <-; auto.
  - apply IH in Hm; exact Hm.
Qed.

(** Claim C3 (amended). Whenever [mineBlock(d)] returns, the first [d]
    characters of the block's hash are all ['0']; and the stored hash equals
    [calculateHash()] on the block's final fields provided it did so when
    [mineBlock] was called (as for every block fresh from the constructor). *)
Theorem mineBlock_correct (d fuel : nat) (b b' : Block.t) :
  Block.mineBlock d fuel b = Ok b' ->
  (d <= String.length (Block.hash b') /\
   (forall k, k < d -> String.get k (Block.hash b') = Some "0"%char)) /\
  (Block.hash b = Block.calculateHash b -> Block.hash b' = Block.calculateHash b').
Proof.
  revert b; induction fuel as [|fuel IH]; intros b Hm; simpl in Hm; [discriminate|].
  destruct (String.eqb _ _) eqn:E.
  - injection Hm as <-.
    apply String.eqb_eq, substring_zeros in E.
    split; [exact E | auto].
  - destruct (IH _ Hm) as [Hz Hh].
    split; [exact Hz|].
    intros _; apply Hh; reflexivity.
Qed.

End Proofs.

(** Claim C3 fails as stated: on a block whose stored hash is stale, [mineBlock(0)]
    returns at once and the stale hash stays. *)
Lemma mineBlock_stale_counterexample :
  @Block.mineBlock identityCrypto 0 1 staleBlock = Ok staleBlock /\
  Block.hash staleBlock <> @Block.calculateHash identityCrypto staleBlock.
Proof. split; [reflexivity | vm_compute; discriminate]. Qed.

Lemma mineBlock_correct_witness :
  @Block.mineBlock identityCrypto 2 1 easyBlock = Ok easyBlock /\
  ((2 <= String.length (Block.hash easyBlock) /\
    (forall k, k < 2 -> String.get k (Block.hash easyBlock) = Some "0"%char)) /\
   (Block.hash easyBlock = @Block.calculateHash identityCrypto easyBlock ->
    Block.hash easyBlock = @Block.calculateHash identityCrypto easyBlock)).
Proof.
  split; [vm_compute; reflexivity|].
  apply (@mineBlock_correct identityCrypto 2 1 easyBlock easyBlock).
  vm_compute; reflexivity.
Defined.

Lemma str_append_assoc (a b c : string) : (a +++ b) +++ c = a +++ (b +++ c).
Proof. induction a as [|x a IH]; simpl; [reflexivity | now rewrite IH]. Qed.

Section TransactionProofs.
Context `{CR : Crypto}.

(** A string [fromAddress] makes the [+] chain of [calculateHash] a string. *)
Lemma calculateHash_string_from (a : string) (tx : Transaction.t) :
  Transaction.fromAddress tx = VStr a ->
  Transaction.calculateHash tx =
  Ok (sha256 (a +++ prim_to_string (prim_of_value (Transaction.toAddress tx))
               +++ number_to_string (Transaction.amount tx)
               +++ Z_to_string (Transaction.timestamp tx))).
Proof.
  intros Hf; unfold Transaction.calculateHash; rewrite Hf; simpl.
  destruct (Transaction.toAddress tx); simpl; rewrite ?str_append_assoc; reflexivity.
Qed.

(** Claim C8. If the public key of the signing key is not [fromAddress],
    [signTransaction] throws the authorization error and leaves the
    transaction as it was; if it is, it succeeds and stores the signature of
    the digest [calculateHash()] returns. *)
Theorem signTransaction_spec (k : string) (tx : Transaction.t) :
  (Transaction.fromAddress tx <> VStr (ecGetPublic k) ->
   Transaction.signTransaction k tx =
   (tx, Throw (Error "You cannot sign transactions for other wallets!"))) /\
  (Transaction.fromAddress tx = VStr (ecGetPublic k) ->
   exists h, Transaction.calculateHash tx = Ok h /\
             Transaction.signTransaction k tx =
             (Transaction.set_signature (ecSign k h) tx, Ok tt)).
Proof.
  split.
  - intros Hne. unfold Transaction.signTransaction, bind, get, throw; simpl.
    destruct (Transaction.fromAddress tx) as [| |a] eqn:Ef; simpl; try reflexivity.
    destruct (String.eqb (ecGetPublic k) a) eqn:E; simpl; [|reflexivity].
    apply String.eqb_eq in E; subst; congruence.
  - intros Heq.
    eexists; split; [apply (calculateHash_string_from _ _ Heq)|].
    unfold Transaction.signTransaction, bind, get, lift, put; simpl.
    rewrite Heq; simpl; rewrite String.eqb_refl; simpl.
    rewrite (calculateHash_string_from _ _ Heq); reflexivity.
Qed.

(** Claim C7 (amended). [isValid()] returns true at once exactly when
    [fromAddress] is [null]; for any other [fromAddress] (a string, but also
    [undefined]) it throws when the signature is missing or empty, and
    otherwise returns the verification of the signature against the digest
    [calculateHash()] returns, with [fromAddress] as the public key (for a
    string [fromAddress] that digest always exists). *)
Theorem isValid_spec (tx : Transaction.t) :
  (Transaction.fromAddress tx = VNull -> Transaction.isValid tx = Ok true) /\
  (Transaction.fromAddress tx <> VNull ->
   (Transaction.signature tx = None \/ Transaction.signature tx = Some EmptyString) ->
   Transaction.isValid tx = Throw (Error "No signature in this transaction")) /\
  (forall sig h, Transaction.fromAddress tx <> VNull ->
   Transaction.signature tx = Some sig -> sig <> EmptyString ->
   Transaction.calculateHash tx = Ok h ->
   Transaction.isValid tx = Ok (ecVerify (Transaction.fromAddress tx) h sig)) /\
  (forall a, Transaction.fromAddress tx = VStr a ->
   exists h, Transaction.calculateHash tx = Ok h).
Proof.
  unfold Transaction.isValid.
  split; [intros ->; reflexivity|].
  split; [|split].
  - intros Hn [Hs|Hs]; rewrite Hs;
      destruct (Transaction.fromAddress tx); try congruence; reflexivity.
  - intros sig h Hn Hs Hne Hh; rewrite Hs, Hh.
    apply String.eqb_neq in Hne; rewrite Hne.
    destruct (Transaction.fromAddress tx); try congruence; reflexivity.
  - intros a Ha; eexists; apply (calculateHash_string_from _ _ Ha).
Qed.

End TransactionProofs.

(** Claim C7 fails as stated: a transaction whose [fromAddress] is absent
    ([undefined]) is not accepted at once; [isValid()] throws. *)
Lemma isValid_undefined_counterexample :
  @Transaction.isValid identityCrypto undefSenderTx =
  Throw (Error "No signature in this transaction").
Proof. reflexivity. Qed.

Lemma signTransaction_spec_witness :
  Transaction.fromAddress (transferTx "B" 1) = VStr (@ecGetPublic identityCrypto "k") /\
  exists h, @Transaction.calculateHash identityCrypto (transferTx "B" 1) = Ok h /\
            @Transaction.signTransaction identityCrypto "k" (transferTx "B" 1) =
            (Transaction.set_signature (@ecSign identityCrypto "k" h) (transferTx "B" 1), Ok tt).
Proof.
  split; [reflexivity|].
  apply (proj2 (@signTransaction_spec identityCrypto "k" (transferTx "B" 1))).
  reflexivity.
Defined.

Lemma isValid_spec_witness :
  @Transaction.isValid identityCrypto undefSenderTx =
  Throw (Error "No signature in this transaction").
Proof.
  apply (proj1 (proj2 (@isValid_spec identityCrypto undefSenderTx))).
  - discriminate.
  - left; reflexivity.
Defined.

Ltac split_hyps :=
  repeat match goal with
         | H : _ /\ _ |- _ => destruct H
         | H : _ \/ _ |- _ => destruct H
         end.

Section AddTransactionProofs.
Context `{CR : Crypto}.

(** The validation pipeline of [addTransaction], written as one decision
    tree: each check in order, each failure leaving the state as it was. *)
Lemma addTransaction_unfold (tx : Transaction.t) (bc : Blockchain.t) :
  Blockchain.addTransaction tx bc =
  if negb (truthy (Transaction.fromAddress tx)) || negb (truthy (Transaction.toAddress tx))
  then (bc, Throw (Error "Transaction must include from and to address"))
  else match Transaction.isValid tx with
       | Throw e => (bc, Throw e)
       | OutOfFuel => (bc, OutOfFuel)
       | Ok false => (bc, Throw (Error "Cannot add invalid transaction to chain"))
       | Ok true =>
         if num_le (Transaction.amount tx) (Fin 0)
         then (bc, Throw (Error "Transaction amount should be higher than 0"))
         else if num_lt (Blockchain.getBalanceOfAddress bc (Transaction.fromAddress tx))
                        (Transaction.amount tx)
         then (bc, Throw (Error "Not enough balance"))
         else (Blockchain.set_pendingTransactions
                 (Blockchain.pendingTransactions bc ++ [tx]) bc, Ok tt)
       end.
Proof.
  unfold Blockchain.addTransaction, bind, lift, get, put, throw.
  destruct (_ || _); [reflexivity|].
  destruct (Transaction.isValid tx) as [[|]|e|]; simpl; try reflexivity.
  destruct (num_le _ _); [reflexivity|].
  destruct (num_lt _ _); reflexivity.
Qed.

(** Claim C4. [addTransaction] runs its four checks in order, each failing
    with its own error (an error thrown by [isValid()] itself propagates at
    the second check); every failure leaves the whole blockchain state as it
    was, and success only appends the transaction to the pending pool. *)
Theorem addTransaction_spec (tx : Transaction.t) (bc : Blockchain.t) :
  let from := Transaction.fromAddress tx in
  let to := Transaction.toAddress tx in
  let ok := truthy from = true /\ truthy to = true in
  NoDup ["Transaction must include from and to address";
         "Cannot add invalid transaction to chain";
         "Transaction amount should be higher than 0";
         "Not enough balance"] /\
  (truthy from = false \/ truthy to = false ->
   Blockchain.addTransaction tx bc =
   (bc, Throw (Error "Transaction must include from and to address"))) /\
  (ok -> Transaction.isValid tx = Ok false ->
   Blockchain.addTransaction tx bc =
   (bc, Throw (Error "Cannot add invalid transaction to chain"))) /\
  (forall e, ok -> Transaction.isValid tx = Throw e ->
   Blockchain.addTransaction tx bc = (bc, Throw e)) /\
  (ok -> Transaction.isValid tx = Ok true ->
   num_le (Transaction.amount tx) (Fin 0) = true ->
   Blockchain.addTransaction tx bc =
   (bc, Throw (Error "Transaction amount should be higher than 0"))) /\
  (ok -> Transaction.isValid tx = Ok true ->
   num_le (Transaction.amount tx) (Fin 0) = false ->
   num_lt (Blockchain.getBalanceOfAddress bc from) (Transaction.amount tx) = true ->
   Blockchain.addTransaction tx bc = (bc, Throw (Error "Not enough balance"))) /\
  (ok -> Transaction.isValid tx = Ok true ->
   num_le (Transaction.amount tx) (Fin 0) = false ->
   num_lt (Blockchain.getBalanceOfAddress bc from) (Transaction.amount tx) = false ->
   Blockchain.addTransaction tx bc =
   (Blockchain.set_pendingTransactions (Blockchain.pendingTransactions bc ++ [tx]) bc, Ok tt)) /\
  (forall bc' e, Blockchain.addTransaction tx bc = (bc', Throw e) -> bc' = bc) /\
  (forall bc' r, Blockchain.addTransaction tx bc = (bc', r) -> r <> OutOfFuel) /\
  (forall bc', Blockchain.addTransaction tx bc = (bc', Ok tt) ->
   bc' = Blockchain.set_pendingTransactions (Blockchain.pendingTransactions bc ++ [tx]) bc).
Proof.
  cbv zeta.
  assert (Hnf : Transaction.isValid tx <> OutOfFuel).
  { unfold Transaction.isValid, obind.
    destruct (Transaction.fromAddress tx); cbn; try discriminate;
      destruct (Transaction.signature tx) as [sig|]; cbn; try discriminate;
      destruct (String.eqb sig EmptyString); cbn; try discriminate;
      unfold Transaction.calculateHash; destruct (plus _ _); cbn; discriminate. }
  rewrite !addTransaction_unfold.
  split.
  { repeat constructor; simpl; intuition discriminate. }
  destruct (truthy (Transaction.fromAddress tx)) eqn:Ef,
           (truthy (Transaction.toAddress tx)) eqn:Et; simpl;
    [|repeat split; intros; try (split_hyps; congruence);
      repeat match goal with H : _ \/ _ |- _ => destruct H end; congruence ..].
  destruct (Transaction.isValid tx) as [[|]|e|] eqn:Ev; [| | |congruence].
  - destruct (num_le _ _) eqn:El; [|destruct (num_lt _ _) eqn:Elt];
      repeat split; intros; split_hyps; try congruence.
  - repeat split; intros; split_hyps; congruence.
  - repeat split; intros; split_hyps; congruence.
Qed.

End AddTransactionProofs.

Section MiningProofs.
Context `{CR : Crypto}.

Lemma getLatestBlock_app (pre : list Block.t) (latest : Block.t) (bc : Blockchain.t) :
  Blockchain.chain bc = pre ++ [latest] -> Blockchain.getLatestBlock bc = Some latest.
Proof.
  intros Hc; unfold Blockchain.getLatestBlock; rewrite Hc, length_app; simpl.
  rewrite Nat.add_sub, nth_error_app2, Nat.sub_diag by lia; reflexivity.
Qed.

Lemma chain_last (c : list Block.t) :
  c <> [] -> exists pre latest, c = pre ++ [latest].
Proof.
  intros Hne; destruct (exists_last Hne) as [pre [latest ->]]; eauto.
Qed.

(** What [minePendingTransactions] does on a chain with a last block. *)
Lemma minePendingTransactions_run (addr : value) (now_tx now_block : Z) (fuel : nat)
    (bc : Blockchain.t) (pre : list Block.t) (latest : Block.t) :
  Blockchain.chain bc = pre ++ [latest] ->
  let rewardTx := Transaction.new VNull addr (Blockchain.miningReward bc) now_tx in
  let pending := Blockchain.pendingTransactions bc ++ [rewardTx] in
  let block := Block.new (PNum (Fin now_block)) (Block.TxArray pending) (Block.hash latest) in
  Blockchain.minePendingTransactions addr now_tx now_block fuel bc =
  match Block.mineBlock (Blockchain.difficulty bc) fuel block with
  | Ok blk => (Blockchain.mk (Blockchain.chain bc ++ [blk]) (Blockchain.difficulty bc) []
                             (Blockchain.miningReward bc), Ok tt)
  | Throw e => (Blockchain.set_pendingTransactions pending bc, Throw e)
  | OutOfFuel => (Blockchain.set_pendingTransactions pending bc, OutOfFuel)
  end.
Proof.
  intros Hc; cbv zeta.
  unfold Blockchain.minePendingTransactions, bind, get, put, lift.
  rewrite (getLatestBlock_app pre latest) by exact Hc.
  destruct (Block.mineBlock _ _ _); reflexivity.
Qed.

(** [mineBlock] never throws. *)
Lemma mineBlock_no_throw (d fuel : nat) (b : Block.t) (e : exn) :
  Block.mineBlock d fuel b <> Throw e.
Proof.
  revert b; induction fuel as [|fuel IH]; intros b; simpl; [discriminate|].
  destruct (String.eqb _ _); [discriminate | apply IH].
Qed.

Lemma minePendingTransactions_ok (addr : value) (now_tx now_block : Z) (fuel : nat)
    (bc bc' : Blockchain.t) (pre : list Block.t) (latest : Block.t) :
  Blockchain.chain bc = pre ++ [latest] ->
  Blockchain.minePendingTransactions addr now_tx now_block fuel bc = (bc', Ok tt) ->
  exists blk,
    Block.mineBlock (Blockchain.difficulty bc) fuel
      (Block.new (PNum (Fin now_block))
         (Block.TxArray (Blockchain.pendingTransactions bc ++
                         [Transaction.new VNull addr (Blockchain.miningReward bc) now_tx]))
         (Block.hash latest)) = Ok blk /\
    bc' = Blockchain.mk (Blockchain.chain bc ++ [blk]) (Blockchain.difficulty bc) []
                        (Blockchain.miningReward bc).
Proof.
  intros Hc Hm; rewrite (minePendingTransactions_run _ _ _ _ _ _ _ Hc) in Hm; cbv zeta in Hm.
  destruct (Block.mineBlock _ _ _) as [blk|e|]; try discriminate.
  injection Hm as <-; eauto.
Qed.

(** Claim C6. On every blockchain state (its chain is never empty),
    [minePendingTransactions(minerAddress)] raises no error; when it returns
    (the proof-of-work loop may run for ever), the chain has grown by exactly
    one block appended after the unchanged old blocks; that block is the
    block built from the whole pending pool followed by the reward
    transaction [(null, minerAddress, miningReward)], linked to the hash of
    the previously latest block and mined at the chain's difficulty; and the
    pending pool is empty. *)
Theorem minePendingTransactions_spec (addr : value) (now_tx now_block : Z) (fuel : nat)
    (bc bc' : Blockchain.t) (r : outcome unit) :
  Blockchain.chain bc <> [] ->
  Blockchain.minePendingTransactions addr now_tx now_block fuel bc = (bc', r) ->
  r = OutOfFuel \/
  (r = Ok tt /\
   exists pre latest blk,
     let rewardTx := Transaction.new VNull addr (Blockchain.miningReward bc) now_tx in
     Blockchain.chain bc = pre ++ [latest] /\
     Block.mineBlock (Blockchain.difficulty bc) fuel
       (Block.new (PNum (Fin now_block))
          (Block.TxArray (Blockchain.pendingTransactions bc ++ [rewardTx]))
          (Block.hash latest)) = Ok blk /\
     Block.transactions blk = Block.TxArray (Blockchain.pendingTransactions bc ++ [rewardTx]) /\
     Block.previousHash blk = Block.hash latest /\
     Block.timestamp blk = PNum (Fin now_block) /\
     (forall k, k < Blockchain.difficulty bc -> String.get k (Block.hash blk) = Some "0"%char) /\
     Block.hash blk = Block.calculateHash blk /\
     Blockchain.chain bc' = Blockchain.chain bc ++ [blk] /\
     length (Blockchain.chain bc') = S (length (Blockchain.chain bc)) /\
     Blockchain.pendingTransactions bc' = [] /\
     Blockchain.difficulty bc' = Blockchain.difficulty bc /\
     Blockchain.miningReward bc' = Blockchain.miningReward bc).
Proof.
  intros Hne Hm.
  destruct (chain_last _ Hne) as [pre [latest Hc]].
  rewrite (minePendingTransactions_run _ _ _ _ _ _ _ Hc) in Hm; cbv zeta in Hm.
  destruct (Block.mineBlock _ _ _) as [blk|e|] eqn:Hb.
  - injection Hm as <- <-; right; split; [reflexivity|].
    exists pre, latest, blk; cbv zeta.
    destruct (mineBlock_fields _ _ _ _ Hb) as (Hp & Ht & Hx).
    destruct (mineBlock_correct _ _ _ _ Hb) as ((_ & Hz) & Hh).
    repeat split; auto; try (apply Hh; reflexivity).
    simpl; rewrite length_app; simpl; lia.
  - exfalso; eapply mineBlock_no_throw; eassumption.
  - injection Hm as _ <-; left; reflexivity.
Qed.

End MiningProofs.

Section BalanceProofs.
Context `{CR : Crypto}.

Lemma num_sub_add_neg (x y : number) : num_sub x y = num_add x (num_neg y).
Proof. destruct x, y; reflexivity. Qed.

Lemma balance_inner (address : value) (l : list Blockchain.item) (bal : number) :
  fold_left (Blockchain.balance_step address) l bal =
  fold_left num_add (balance_terms address l) bal.
Proof.
  revert bal; induction l as [|it l IH]; intros bal; [reflexivity|].
  simpl; rewrite fold_left_app, IH; f_equal.
  unfold Blockchain.balance_step.
  destruct (strict_eqb (Blockchain.item_from it) address),
           (strict_eqb (Blockchain.item_to it) address);
    simpl; rewrite ?num_sub_add_neg; reflexivity.
Qed.

Lemma balance_terms_app (address : value) (l1 l2 : list Blockchain.item) :
  balance_terms address (l1 ++ l2) = balance_terms address l1 ++ balance_terms address l2.
Proof. apply flat_map_app. Qed.

Lemma balance_outer (address : value) (c : list Block.t) (bal : number) :
  fold_left (fun balance block =>
               fold_left (Blockchain.balance_step address) (Blockchain.items block) balance)
            c bal =
  fold_left num_add (balance_terms address (flat_map Blockchain.items c)) bal.
Proof.
  revert bal; induction c as [|b c IH]; intros bal; [reflexivity|].
  simpl; rewrite IH, balance_inner, <- fold_left_app, balance_terms_app.
  reflexivity.
Qed.

(** A string address matches no character of a genesis string. *)
Lemma balance_terms_items_string (s : string) (b : Block.t) :
  balance_terms (VStr s) (Blockchain.items b) =
  balance_terms (VStr s) (map Blockchain.ITx (block_transactions b)).
Proof.
  unfold Blockchain.items, block_transactions.
  destruct (Block.transactions b) as [l|str]; [reflexivity|].
  induction (list_ascii_of_string str) as [|c cs IH]; [reflexivity|].
  exact IH.
Qed.

Lemma getBalance_string (bc : Blockchain.t) (s : string) :
  Blockchain.getBalanceOfAddress bc (VStr s) = balance_spec_txs bc (VStr s).
Proof.
  unfold Blockchain.getBalanceOfAddress, balance_spec_txs.
  rewrite balance_outer; f_equal.
  induction (Blockchain.chain bc) as [|blk c IH]; [reflexivity|].
  simpl; rewrite map_app, !balance_terms_app, IH, balance_terms_items_string.
  reflexivity.
Qed.

(** Claim C5. [getBalanceOfAddress(address)] is the in-order sum from zero
    of [-amount] for every element whose sender is the address and
    [+amount] for every element whose recipient is it; for a string
    address only the transactions proper count. After one block mined on a
    fresh chain (the reward only) for address [A], [A] has 100 and every
    other string address 0. *)
Theorem getBalanceOfAddress_spec :
  (forall bc address,
     Blockchain.getBalanceOfAddress bc address = balance_spec bc address) /\
  (forall bc s,
     Blockchain.getBalanceOfAddress bc (VStr s) = balance_spec_txs bc (VStr s)) /\
  (forall a b now_tx now_block fuel bc',
     Blockchain.minePendingTransactions (VStr a) now_tx now_block fuel Blockchain.new
     = (bc', Ok tt) ->
     b <> a ->
     Blockchain.getBalanceOfAddress bc' (VStr a) = Fin 100 /\
     Blockchain.getBalanceOfAddress bc' (VStr b) = Fin 0).
Proof.
  split; [|split].
  - intros bc address; apply balance_outer.
  - apply getBalance_string.
  - intros a b now_tx now_block fuel bc' Hm Hba.
    destruct (minePendingTransactions_ok _ _ _ _ Blockchain.new _ []
                Blockchain.createGenesisBlock eq_refl Hm) as [blk [Hb ->]].
    destruct (mineBlock_fields _ _ _ _ Hb) as (_ & _ & Hx).
    rewrite !getBalance_string.
    unfold balance_spec_txs, block_transactions; simpl; rewrite Hx; simpl.
    rewrite String.eqb_refl.
    assert (Hab : String.eqb a b = false) by (apply String.eqb_neq; congruence).
    rewrite Hab; split; reflexivity.
Qed.

End BalanceProofs.

Section PendingProofs.
Context `{CR : Crypto}.
Local Open Scope Z_scope.

(** Signing with the key of [fromAddress] succeeds, and the result
    validates when the key's signatures verify. *)
Lemma signTransaction_own (k : string) (tx : Transaction.t) :
  Transaction.fromAddress tx = VStr (ecGetPublic k) ->
  exists h, Transaction.calculateHash tx = Ok h /\
            Transaction.signTransaction k tx =
            (Transaction.set_signature (ecSign k h) tx, Ok tt).
Proof.
  intros Heq.
  eexists; split; [apply (calculateHash_string_from _ _ Heq)|].
  unfold Transaction.signTransaction, bind, get, lift, put; simpl.
  rewrite Heq; simpl; rewrite String.eqb_refl; simpl.
  rewrite (calculateHash_string_from _ _ Heq); reflexivity.
Qed.

Lemma isValid_signed (k : string) (tx : Transaction.t) (h : string) :
  Transaction.fromAddress tx = VStr (ecGetPublic k) ->
  Transaction.calculateHash tx = Ok h ->
  ecVerify (VStr (ecGetPublic k)) h (ecSign k h) = true ->
  ecSign k h <> EmptyString ->
  Transaction.isValid (Transaction.set_signature (ecSign k h) tx) = Ok true.
Proof.
  intros Hf Hh Hv Hne.
  unfold Transaction.isValid; simpl; rewrite Hf.
  apply String.eqb_neq in Hne; rewrite Hne.
  change (Transaction.calculateHash (Transaction.set_signature (ecSign k h) tx))
    with (Transaction.calculateHash tx).
  rewrite Hh; simpl; rewrite Hv; reflexivity.
Qed.

Lemma getBalance_set_pending (p : list Transaction.t) (bc : Blockchain.t) (a : value) :
  Blockchain.getBalanceOfAddress (Blockchain.set_pendingTransactions p bc) a =
  Blockchain.getBalanceOfAddress bc a.
Proof. reflexivity. Qed.

Lemma addTransaction_accepts (bc : Blockchain.t) (tx : Transaction.t) (pub : string) (a B : Z) :
  Transaction.fromAddress tx = VStr pub -> pub <> EmptyString ->
  truthy (Transaction.toAddress tx) = true ->
  Transaction.isValid tx = Ok true ->
  Transaction.amount tx = Fin a -> 0 < a -> a <= B ->
  Blockchain.getBalanceOfAddress bc (VStr pub) = Fin B ->
  Blockchain.addTransaction tx bc =
  (Blockchain.set_pendingTransactions (Blockchain.pendingTransactions bc ++ [tx]) bc, Ok tt).
Proof.
  intros Hf Hp Ht Hv Ha Ha0 HaB Hb.
  rewrite addTransaction_unfold, Hf, Ht, Hv, Ha, Hb; simpl.
  apply String.eqb_neq in Hp; rewrite Hp; simpl.
  replace (Z.ltb a 0 || Z.eqb a 0) with false
    by (symmetry; apply orb_false_iff; split; [apply Z.ltb_ge | apply Z.eqb_neq]; lia).
  replace (Z.ltb B a) with false by (symmetry; apply Z.ltb_ge; lia).
  reflexivity.
Qed.

(** Claim C9. The balance check of [addTransaction] reads the mined chain
    only: from any state in which a wallet holds [B > 0], two transactions
    it signs for amounts [a1 <= B] and [a2 <= B] with [a1 + a2 > B] are both
    accepted, one after the other, into the same pending batch. *)
Theorem addTransaction_pending_overdraw (bc : Blockchain.t) (k to1 to2 : string)
    (B a1 a2 now1 now2 : Z) :
  (forall m, ecVerify (VStr (ecGetPublic k)) m (ecSign k m) = true) ->
  (forall m, ecSign k m <> EmptyString) ->
  ecGetPublic k <> EmptyString -> to1 <> EmptyString -> to2 <> EmptyString ->
  Blockchain.getBalanceOfAddress bc (VStr (ecGetPublic k)) = Fin B ->
  0 < B -> 0 < a1 <= B -> 0 < a2 <= B -> B < a1 + a2 ->
  exists tx1 tx2 bc1,
    Transaction.signTransaction k
      (Transaction.new (VStr (ecGetPublic k)) (VStr to1) (Fin a1) now1) = (tx1, Ok tt) /\
    Transaction.signTransaction k
      (Transaction.new (VStr (ecGetPublic k)) (VStr to2) (Fin a2) now2) = (tx2, Ok tt) /\
    Transaction.isValid tx1 = Ok true /\ Transaction.isValid tx2 = Ok true /\
    Blockchain.addTransaction tx1 bc = (bc1, Ok tt) /\
    Blockchain.getBalanceOfAddress bc1 (VStr (ecGetPublic k)) = Fin B /\
    Blockchain.addTransaction tx2 bc1 =
    (Blockchain.set_pendingTransactions (Blockchain.pendingTransactions bc ++ [tx1; tx2]) bc,
     Ok tt).
Proof.
  intros Hv Hs Hp Ht1 Ht2 Hb HB Ha1 Ha2 Hover.
  set (u1 := Transaction.new (VStr (ecGetPublic k)) (VStr to1) (Fin a1) now1).
  set (u2 := Transaction.new (VStr (ecGetPublic k)) (VStr to2) (Fin a2) now2).
  destruct (signTransaction_own k u1 eq_refl) as [h1 [Hh1 Hsig1]].
  destruct (signTransaction_own k u2 eq_refl) as [h2 [Hh2 Hsig2]].
  pose proof (isValid_signed k u1 h1 eq_refl Hh1 (Hv h1) (Hs h1)) as V1.
  pose proof (isValid_signed k u2 h2 eq_refl Hh2 (Hv h2) (Hs h2)) as V2.
  assert (T1 : truthy (VStr to1) = true)
    by (simpl; apply negb_true_iff, String.eqb_neq; exact Ht1).
  assert (T2 : truthy (VStr to2) = true)
    by (simpl; apply negb_true_iff, String.eqb_neq; exact Ht2).
  eexists _, _, _; split; [exact Hsig1|]; split; [exact Hsig2|].
  split; [exact V1|]; split; [exact V2|].
  split; [apply (addTransaction_accepts _ _ (ecGetPublic k) a1 B); auto; lia|].
  split; [rewrite getBalance_set_pending; exact Hb|].
  rewrite (addTransaction_accepts _ _ (ecGetPublic k) a2 B); auto; try lia.
  simpl; rewrite <- app_assoc; reflexivity.
Qed.

End PendingProofs.

Section ReachableProofs.
Context `{CR : Crypto}.

Lemma truthy_not_null (v : value) : truthy v = true -> v <> VNull.
Proof. intros Ht ->; discriminate. Qed.

Lemma reward_invariant_add (bc bc' : Blockchain.t) (ms : list value) (tx : Transaction.t)
    (r : outcome unit) :
  reward_invariant bc ms -> Blockchain.addTransaction tx bc = (bc', r) ->
  reward_invariant bc' ms.
Proof.
  intros (Hr & Hc & Hp) Ha; rewrite addTransaction_unfold in Ha.
  destruct (truthy (Transaction.fromAddress tx)) eqn:Ef; simpl in Ha;
    [|injection Ha as <- _; repeat split; auto].
  destruct (truthy (Transaction.toAddress tx)); simpl in Ha;
    [|injection Ha as <- _; repeat split; auto].
  destruct (Transaction.isValid tx) as [[|]|e|];
    try (injection Ha as <- _; repeat split; auto; fail).
  destruct (num_le _ _); [injection Ha as <- _; repeat split; auto|].
  destruct (num_lt _ _); [injection Ha as <- _; repeat split; auto|].
  injection Ha as <- _.
  repeat split; auto.
  simpl; apply Forall_app; split; auto.
Qed.

Lemma reward_invariant_chain (bc : Blockchain.t) (ms : list value) :
  reward_invariant bc ms -> Blockchain.chain bc <> [].
Proof. intros (_ & [blocks [Hc _]] & _); rewrite Hc; discriminate. Qed.

Lemma reward_invariant_mine (bc bc' : Blockchain.t) (ms : list value) (m : value)
    (now_tx now_block : Z) (fuel : nat) :
  reward_invariant bc ms ->
  Blockchain.minePendingTransactions m now_tx now_block fuel bc = (bc', Ok tt) ->
  reward_invariant bc' (ms ++ [m]).
Proof.
  intros Hi Hm.
  destruct (chain_last _ (reward_invariant_chain _ _ Hi)) as [pre [latest Hl]].
  destruct Hi as (Hr & [blocks [Hc Hf]] & Hp).
  destruct (minePendingTransactions_ok _ _ _ _ _ _ _ _ Hl Hm) as [blk [Hb ->]].
  destruct (mineBlock_fields _ _ _ _ Hb) as (_ & _ & Hx).
  repeat split; simpl; auto.
  exists (blocks ++ [blk]); split.
  - rewrite Hc; reflexivity.
  - apply Forall2_app; [exact Hf|].
    constructor; [|constructor].
    exists (Blockchain.pendingTransactions bc), now_tx; split.
    + rewrite Hx, Hr; reflexivity.
    + eapply Forall_impl; [|exact Hp]; intros tx; apply truthy_not_null.
Qed.

Lemma reward_invariant_mine_throw (bc bc' : Blockchain.t) (ms : list value) (m : value)
    (now_tx now_block : Z) (fuel : nat) (e : exn) :
  reward_invariant bc ms ->
  Blockchain.minePendingTransactions m now_tx now_block fuel bc = (bc', Throw e) ->
  False.
Proof.
  intros Hi Hm.
  destruct (chain_last _ (reward_invariant_chain _ _ Hi)) as [pre [latest Hl]].
  rewrite (minePendingTransactions_run _ _ _ _ _ _ _ Hl) in Hm; cbv zeta in Hm.
  destruct (Block.mineBlock _ _ _) as [blk|e'|] eqn:Hb; try discriminate.
  eapply mineBlock_no_throw; exact Hb.
Qed.

Lemma reachable_reward_invariant (bc : Blockchain.t) (ms : list value) :
  reachable bc ms -> reward_invariant bc ms.
Proof.
  induction 1 as [| ? ? ? ? ? _ IH Ha | ? ? ? ? ? ? ? _ IH Hm | ? ? ? ? ? ? ? ? _ IH Hm].
  - repeat split; auto; exists []; split; [reflexivity | constructor].
  - eapply reward_invariant_add; eassumption.
  - eapply reward_invariant_mine; eassumption.
  - exfalso; eapply reward_invariant_mine_throw; eassumption.
Qed.

(** Claim C10. In every state reachable through the public API, the chain is
    the genesis block followed by one block per completed mining call, and
    the block of the call with miner address [m] has as transactions some
    transactions none of which has a [null] sender, followed by exactly one
    reward [(null, m, miningReward)], with [miningReward] = 100. *)
Theorem reachable_blocks_end_with_reward (bc : Blockchain.t) (ms : list value) :
  reachable bc ms ->
  Blockchain.miningReward bc = Fin 100 /\
  exists blocks,
    Blockchain.chain bc = Blockchain.createGenesisBlock :: blocks /\
    Forall2 (rewardShaped (Blockchain.miningReward bc)) blocks ms.
Proof.
  intros Hr; destruct (reachable_reward_invariant _ _ Hr) as (H100 & [blocks [Hc Hf]] & _).
  split; [exact H100|]; rewrite H100; eauto.
Qed.

End ReachableProofs.

Section ChainShape.
Context {A : Type}.

Lemma cons2_app_inv (x y : A) (rest pre : list A) (p c : A) (post : list A) :
  x :: y :: rest = pre ++ p :: c :: post <->
  (pre = [] /\ p = x /\ c = y /\ post = rest) \/
  (exists pre', pre = x :: pre' /\ y :: rest = pre' ++ p :: c :: post).
Proof.
  split.
  - destruct pre as [|z pre']; simpl; intros Heq.
    + injection Heq as -> -> ->; left; auto.
    + injection Heq as -> Heq; right; eauto.
  - intros [(-> & -> & -> & ->) | (pre' & -> & Heq)]; [reflexivity|].
    simpl; rewrite <- Heq; reflexivity.
Qed.

Lemma single_app_inv (x : A) (pre : list A) (p c : A) (post : list A) :
  [x] <> pre ++ p :: c :: post.
Proof.
  destruct pre as [|z pre']; simpl; [discriminate|].
  intros Heq; injection Heq as _ Heq; exact (app_cons_not_nil _ _ _ Heq).
Qed.

Lemma prefix_head (y : A) (rest pre : list A) (p c : A) (post : list A) :
  y :: rest = pre ++ p :: c :: post -> exists X, pre ++ [p] = y :: X.
Proof.
  destruct pre as [|z pre']; simpl; intros Heq; injection Heq as -> _.
  - exists []; reflexivity.
  - exists (pre' ++ [p]); reflexivity.
Qed.

End ChainShape.

Section ChainValidProofs.
Context `{CR : Crypto}.

Lemma validAll_no_fuel (l : list Transaction.t) : Block.validAll l <> OutOfFuel.
Proof.
  induction l as [|tx l IH]; simpl; [discriminate|].
  unfold Transaction.isValid.
  destruct (Transaction.fromAddress tx); cbn; [exact IH| |];
    (destruct (Transaction.signature tx) as [sig|]; cbn; [|discriminate];
     destruct (String.eqb sig EmptyString); cbn; [discriminate|];
     unfold Transaction.calculateHash; destruct (plus _ _); cbn; try discriminate;
     destruct (ecVerify _ _ _); [exact IH | discriminate]).
Qed.

Lemma hasValidTransactions_no_fuel (b : Block.t) : Block.hasValidTransactions b <> OutOfFuel.
Proof.
  unfold Block.hasValidTransactions.
  destruct (Block.transactions b) as [l|[|c s]]; [apply validAll_no_fuel | discriminate..].
Qed.

(** Unfolding one step of the loop. *)
Lemma checkBlocks_cons (prev cur : Block.t) (rest : list Block.t) :
  Blockchain.checkBlocks prev (cur :: rest) =
  if negb (String.eqb (Block.hash prev) (Block.previousHash cur)) then Ok false
  else match Block.hasValidTransactions cur with
       | Ok true =>
         if negb (String.eqb (Block.hash cur) (Block.calculateHash cur)) then Ok false
         else Blockchain.checkBlocks cur rest
       | Ok false => Ok false
       | Throw e => Throw e
       | OutOfFuel => OutOfFuel
       end.
Proof.
  simpl; destruct (negb _); [reflexivity|].
  destruct (Block.hasValidTransactions cur) as [[|]|e|]; reflexivity.
Qed.

Lemma checkBlocks_true (prev : Block.t) (rest : list Block.t) :
  Blockchain.checkBlocks prev rest = Ok true <->
  (forall pre p c post, prev :: rest = pre ++ p :: c :: post -> block_ok p c).
Proof.
  revert prev; induction rest as [|cur rest IH]; intros prev.
  - split; [intros _ pre p c post Heq; exfalso; eapply single_app_inv; exact Heq
           | reflexivity].
  - rewrite checkBlocks_cons; split.
    + intros Hc pre p c post Heq.
      destruct (String.eqb (Block.hash prev) (Block.previousHash cur)) eqn:El;
        simpl in Hc; [|discriminate].
      destruct (Block.hasValidTransactions cur) as [[|]|e|] eqn:Ev; try discriminate.
      destruct (String.eqb (Block.hash cur) (Block.calculateHash cur)) eqn:Eh;
        simpl in Hc; [|discriminate].
      apply cons2_app_inv in Heq as [(-> & -> & -> & ->) | (pre' & -> & Heq)].
      * apply String.eqb_eq in El, Eh; repeat split; auto.
      * apply (proj1 (IH cur) Hc pre' p c post Heq).
    + intros Hall.
      destruct (Hall [] prev cur rest eq_refl) as (El & Ev & Eh).
      rewrite El, String.eqb_refl, Ev; simpl.
      rewrite Eh, String.eqb_refl; simpl.
      apply IH; intros pre p c post Heq.
      apply (Hall (prev :: pre) p c post); simpl; rewrite <- Heq; reflexivity.
Qed.

Lemma checkBlocks_throw (prev : Block.t) (rest : list Block.t) (e : exn) :
  Blockchain.checkBlocks prev rest = Throw e <->
  exists pre p c post,
    prev :: rest = pre ++ p :: c :: post /\
    (forall pre' p' c' post', pre ++ [p] = pre' ++ p' :: c' :: post' -> block_ok p' c') /\
    Block.hash p = Block.previousHash c /\
    Block.hasValidTransactions c = Throw e.
Proof.
  revert prev; induction rest as [|cur rest IH]; intros prev.
  - split; [discriminate|].
    intros (pre & p & c & post & Heq & _); exfalso; eapply single_app_inv; exact Heq.
  - rewrite checkBlocks_cons; split.
    + intros Hc.
      destruct (String.eqb (Block.hash prev) (Block.previousHash cur)) eqn:El;
        simpl in Hc; [|discriminate].
      apply String.eqb_eq in El.
      destruct (Block.hasValidTransactions cur) as [[|]|e'|] eqn:Ev; try discriminate.
      * destruct (String.eqb (Block.hash cur) (Block.calculateHash cur)) eqn:Eh;
          simpl in Hc; [|discriminate].
        apply String.eqb_eq in Eh.
        destruct (proj1 (IH cur) Hc) as (pre & p & c & post & Heq & Hpre & Hl & Hv).
        exists (prev :: pre), p, c, post.
        split; [simpl; rewrite <- Heq; reflexivity|].
        split; [|split; assumption].
        intros q p' c' post' Heq'.
           destruct (prefix_head _ _ _ _ _ _ Heq) as [X HX].
           simpl in Heq'; rewrite HX in Heq'.
           apply cons2_app_inv in Heq' as [(-> & -> & -> & ->) | (q' & -> & Heq')].
        -- repeat split; auto.
        -- apply (Hpre q' p' c' post'); rewrite HX; exact Heq'.
      * injection Hc as ->.
        exists [], prev, cur, rest.
        split; [reflexivity|]; split; [|split; assumption].
        intros q p' c' post' Heq'; exfalso; eapply single_app_inv; exact Heq'.
    + intros (pre & p & c & post & Heq & Hpre & Hl & Hv).
      apply cons2_app_inv in Heq as [(-> & -> & -> & ->) | (pre' & -> & Heq)].
      * rewrite Hl, String.eqb_refl, Hv; reflexivity.
      * destruct (prefix_head _ _ _ _ _ _ Heq) as [X HX].
        assert (Hok : block_ok prev cur).
        { apply (Hpre [] prev cur X); simpl; rewrite HX; reflexivity. }
        destruct Hok as (El & Ev & Eh).
        rewrite El, String.eqb_refl, Ev; simpl; rewrite Eh, String.eqb_refl; simpl.
        apply IH; exists pre', p, c, post.
        split; [exact Heq|]; split; [|split; assumption].
        intros q p' c' post' Heq'.
        apply (Hpre (prev :: q) p' c' post'); simpl; rewrite Heq'; reflexivity.
Qed.

Lemma checkBlocks_no_fuel (prev : Block.t) (rest : list Block.t) :
  Blockchain.checkBlocks prev rest <> OutOfFuel.
Proof.
  revert prev; induction rest as [|cur rest IH]; intros prev; [discriminate|].
  rewrite checkBlocks_cons; destruct (negb _); [discriminate|].
  pose proof (hasValidTransactions_no_fuel cur).
  destruct (Block.hasValidTransactions cur) as [[|]|e|]; try discriminate; [|congruence].
  destruct (negb _); [discriminate | apply IH].
Qed.

(** Claim C1, what the code does. [isChainValid()] returns true exactly
    when [chain[0]] serializes like a freshly built genesis block and every
    [chain[i]], [i >= 1], is linked to [chain[i-1]], has
    [hasValidTransactions()] true and a hash equal to [calculateHash()]. It
    raises an error [e] exactly when the genesis check passes and, at the
    first block [c] not passing the checks, the link is right and
    [hasValidTransactions()] raises [e]; in every other case it returns
    false. It always ends. Against the documented boolean result, the
    error of [hasValidTransactions()] is not caught. *)
Theorem isChainValid_spec (bc : Blockchain.t) :
  (Blockchain.isChainValid bc = Ok true <->
   (exists b0 rest, Blockchain.chain bc = b0 :: rest /\
                    Block.json b0 = Block.json Blockchain.createGenesisBlock) /\
   (forall pre p c post, Blockchain.chain bc = pre ++ p :: c :: post -> block_ok p c)) /\
  (forall e,
   Blockchain.isChainValid bc = Throw e <->
   (exists b0 rest, Blockchain.chain bc = b0 :: rest /\
                    Block.json b0 = Block.json Blockchain.createGenesisBlock) /\
   exists pre p c post,
     Blockchain.chain bc = pre ++ p :: c :: post /\
     (forall pre' p' c' post', pre ++ [p] = pre' ++ p' :: c' :: post' -> block_ok p' c') /\
     Block.hash p = Block.previousHash c /\
     Block.hasValidTransactions c = Throw e) /\
  (forall r, Blockchain.isChainValid bc = r ->
   r = Ok false \/ r = Ok true \/ exists e, r = Throw e).
Proof.
  unfold Blockchain.isChainValid.
  destruct (Blockchain.chain bc) as [|b0 rest] eqn:Ec.
  { split; [|split].
    - split; [discriminate|]. intros [(b & r & Hc & _) _]; discriminate.
    - intros e; split; [discriminate|]. intros [(b & r & Hc & _) _]; discriminate.
    - intros r <-; auto. }
  destruct (String.eqb (Block.json Blockchain.createGenesisBlock) (Block.json b0)) eqn:Eg;
    simpl.
  - apply String.eqb_eq in Eg.
    assert (G : exists b1 r1, b0 :: rest = b1 :: r1 /\
                              Block.json b1 = Block.json Blockchain.createGenesisBlock)
      by eauto.
    split; [|split].
    + rewrite checkBlocks_true; split; [intros H; split; auto | intros [_ H]; exact H].
    + intros e; rewrite checkBlocks_throw; split; [intros H; split; auto | intros [_ H]; exact H].
    + intros r <-.
      pose proof (checkBlocks_no_fuel b0 rest).
      destruct (Blockchain.checkBlocks b0 rest) as [[|]|e|]; eauto; congruence.
  - assert (NG : ~ exists b1 r1, b0 :: rest = b1 :: r1 /\
                                 Block.json b1 = Block.json Blockchain.createGenesisBlock).
    { intros (b1 & r1 & Heq & Hj); injection Heq as <- _.
      rewrite Hj, String.eqb_refl in Eg; discriminate. }
    split; [|split].
    + split; [discriminate | intros [G _]; contradiction].
    + intros e; split; [discriminate | intros [G _]; contradiction].
    + intros r <-; auto.
Qed.

End ChainValidProofs.

(** Claim C1 fails on the code: on a chain whose block 1 is correctly
    linked and holds one transaction with a sender and no signature,
    [isChainValid()] raises the error of [isValid()] instead of returning a
    boolean. *)
Lemma isChainValid_raises_counterexample :
  @Blockchain.isChainValid identityCrypto unsignedChain =
  Throw (Error "No signature in this transaction").
Proof. vm_compute; reflexivity. Qed.

(** ** Strings: cancellation and the comma after a number *)

Lemma str_length_app (a b : string) :
  String.length (a +++ b) = String.length a + String.length b.
Proof. induction a as [|c a IH]; simpl; [reflexivity | now rewrite IH]. Qed.

Lemma str_app_cancel_l (a x y : string) : a +++ x = a +++ y -> x = y.
Proof.
  induction a as [|c a IH]; simpl; [auto|].
  intros Heq; injection Heq as Heq; auto.
Qed.

Lemma str_app_cancel_r (x y b : string) : x +++ b = y +++ b -> x = y.
Proof.
  revert y; induction x as [|c x IH]; intros [|c' y] Heq; simpl in Heq.
  - reflexivity.
  - apply (f_equal String.length) in Heq; simpl in Heq;
      rewrite str_length_app in Heq; lia.
  - apply (f_equal String.length) in Heq; simpl in Heq;
      rewrite str_length_app in Heq; lia.
  - injection Heq as -> Heq; f_equal; auto.
Qed.

Lemma comma_free_uint (d : Decimal.uint) :
  comma_free (NilEmpty.string_of_uint d) = true.
Proof. induction d; simpl; auto. Qed.

Lemma comma_free_json_number (x : number) : comma_free (json_number x) = true.
Proof.
  destruct x as [z| | |]; simpl; try reflexivity.
  unfold Z_to_string; destruct (Z.to_int z) as [d|d]; simpl; apply comma_free_uint.
Qed.

(** Two comma-free strings each followed by a comma are told apart. *)
Lemma comma_sep (a a' x y : string) :
  comma_free a = true -> comma_free a' = true ->
  a +++ "," +++ x = a' +++ "," +++ y -> a = a'.
Proof.
  revert a'; induction a as [|c a IH]; intros [|c' a'] Ha Ha' Heq; simpl in *.
  - reflexivity.
  - injection Heq as <- _; discriminate.
  - injection Heq as -> _; discriminate.
  - injection Heq as -> Heq.
    apply andb_prop in Ha as [_ Ha]; apply andb_prop in Ha' as [_ Ha'].
    f_equal; eauto.
Qed.

(** ** The JSON of a transaction around its amount *)

Lemma join_cons (sep a : string) (l : list string) :
  l <> [] -> join sep (a :: l) = a +++ (sep +++ join sep l).
Proof. destruct l; [congruence | reflexivity]. Qed.

Lemma join_split (sep x y : string) (L M : list string) :
  join sep (L ++ x :: y :: M) =
  fold_right (fun a acc => a +++ (sep +++ acc)) (x +++ (sep +++ join sep (y :: M))) L.
Proof.
  induction L as [|a L IH]; [reflexivity|].
  cbn [app fold_right]; rewrite join_cons by (destruct L; discriminate).
  now rewrite IH.
Qed.

Lemma fold_sep_prefix (sep acc : string) (L : list string) :
  fold_right (fun a acc => a +++ (sep +++ acc)) acc L =
  fold_right (fun a acc => a +++ (sep +++ acc)) EmptyString L +++ acc.
Proof.
  induction L as [|a L IH]; [reflexivity|].
  cbn [fold_right]; rewrite IH, !str_append_assoc; reflexivity.
Qed.

Lemma json_object_split (f1 f2 f5 : string * option string) (k3 a k4 b : string) :
  json_object [f1; f2; (k3, Some a); (k4, Some b); f5] =
  ("{" +++ fold_right (fun x acc => x +++ ("," +++ acc)) EmptyString
                      (field_json f1 ++ field_json f2) +++ quote k3 +++ ":")
  +++ (a +++ ("," +++ (join "," ((quote k4 +++ ":" +++ b) :: field_json f5) +++ "}"))).
Proof.
  unfold json_object.
  change (flat_map field_json [f1; f2; (k3, Some a); (k4, Some b); f5]) with
    (field_json f1 ++ field_json f2 ++
     (quote k3 +++ ":" +++ a) :: (quote k4 +++ ":" +++ b) :: field_json f5 ++ []).
  rewrite app_nil_r, app_assoc, join_split, fold_sep_prefix.
  rewrite !str_append_assoc; reflexivity.
Qed.

Lemma tx_json_split (t : Transaction.t) :
  exists P R, forall v,
    Transaction.json (Transaction.set_amount v t) = P +++ (json_number v +++ ("," +++ R)).
Proof.
  eexists; eexists; intros v.
  unfold Transaction.json; rewrite json_object_split.
  cbn [Transaction.set_amount Transaction.fromAddress Transaction.toAddress
       Transaction.timestamp Transaction.signature Transaction.amount].
  reflexivity.
Qed.

Lemma set_amount_same (t : Transaction.t) : Transaction.set_amount (Transaction.amount t) t = t.
Proof. destruct t; reflexivity. Qed.

Lemma tx_json_amount (t : Transaction.t) (v : number) :
  Transaction.json (Transaction.set_amount v t) = Transaction.json t ->
  json_number v = json_number (Transaction.amount t).
Proof.
  destruct (tx_json_split t) as (P & R & HPR).
  rewrite <- (set_amount_same t) at 2; rewrite !HPR; intros Heq.
  apply str_app_cancel_l in Heq.
  eapply comma_sep; [apply comma_free_json_number | apply comma_free_json_number | exact Heq].
Qed.

(** The JSON of a list of transactions, some of whose amounts changed, gives
    back the JSON of each one. *)
Lemma join_json_inj (l l' : list Transaction.t) :
  Forall2 amount_tamper l l' ->
  join "," (map Transaction.json l) = join "," (map Transaction.json l') ->
  map Transaction.json l = map Transaction.json l'.
Proof.
  induction 1 as [|x x' l l' Hx Hrest IH]; [reflexivity|].
  intros Heq.
  destruct Hrest as [|y y' l0 l0' Hy Hrest'].
  - simpl in *; now rewrite Heq.
  - cbn [map] in *.
    rewrite (join_cons "," (Transaction.json x)), (join_cons "," (Transaction.json x'))
      in Heq by discriminate.
    assert (Hxx : Transaction.json x = Transaction.json x').
    { destruct Hx as [-> | (v & ->)]; [reflexivity|].
      destruct (tx_json_split x) as (P & R & HPR).
      rewrite <- (set_amount_same x) in Heq at 1; rewrite !HPR, !str_append_assoc in Heq.
      apply str_app_cancel_l in Heq.
      rewrite <- (set_amount_same x) at 1; rewrite !HPR; f_equal; f_equal.
      eapply comma_sep; [apply comma_free_json_number | apply comma_free_json_number | exact Heq]. }
    rewrite <- Hxx in Heq |- *.
    apply str_app_cancel_l in Heq; injection Heq as Heq.
    f_equal; apply IH; cbn [map]; exact Heq.
Qed.

Lemma combine_map_eq {A B : Type} (f : A -> B) (l l' : list A) (a a' : A) :
  map f l = map f l' -> In (a, a') (combine l l') -> f a = f a'.
Proof.
  revert l'; induction l as [|x l IH]; intros [|x' l'] Hm Hin; simpl in *; try contradiction.
  injection Hm as Hx Hm.
  destruct Hin as [Hin | Hin]; [injection Hin as <- <-; exact Hx | eauto].
Qed.

Lemma tamper_json_txs (l l' : list Transaction.t) (t : Transaction.t) (v : number) :
  Forall2 amount_tamper l l' ->
  In (t, Transaction.set_amount v t) (combine l l') ->
  json_number v <> json_number (Transaction.amount t) ->
  Block.json_txs (Block.TxArray l) <> Block.json_txs (Block.TxArray l').
Proof.
  intros Hf Hin Hv Heq; apply Hv.
  simpl in Heq; unfold json_array in Heq; simpl in Heq.
  injection Heq as Heq; apply str_app_cancel_r in Heq.
  apply join_json_inj in Heq; [|exact Hf].
  apply tx_json_amount; symmetry; exact (combine_map_eq _ _ _ _ _ Heq Hin).
Qed.

Lemma Forall2_refl {A : Type} (R : A -> A -> Prop) (l : list A) :
  (forall x, R x x) -> Forall2 R l l.
Proof. intros HR; induction l; constructor; auto. Qed.

Section TamperProofs.
Context `{CR : Crypto}.
Hypothesis sha256_inj : forall s1 s2, sha256 s1 = sha256 s2 -> s1 = s2.

Lemma calculateHash_set_amount (t : Transaction.t) (v : number) (h : string) :
  Transaction.calculateHash t = Ok h ->
  exists h', Transaction.calculateHash (Transaction.set_amount v t) = Ok h'.
Proof.
  unfold Transaction.calculateHash; cbn [Transaction.set_amount Transaction.fromAddress
    Transaction.toAddress Transaction.amount Transaction.timestamp].
  destruct (plus (prim_of_value (Transaction.fromAddress t))
                 (prim_of_value (Transaction.toAddress t))); cbn; intros H0;
    try discriminate; eauto.
Qed.

Lemma isValid_tamper (t t' : Transaction.t) :
  Transaction.isValid t = Ok true -> amount_tamper t t' ->
  exists b, Transaction.isValid t' = Ok b.
Proof.
  intros Hv [-> | (v & ->)]; [eauto|].
  revert Hv; unfold Transaction.isValid; cbn [Transaction.set_amount Transaction.fromAddress
    Transaction.signature].
  destruct (Transaction.fromAddress t); [eauto| |];
    (destruct (Transaction.signature t) as [sig|]; [|discriminate];
     destruct (String.eqb sig EmptyString); [discriminate|];
     destruct (Transaction.calculateHash t) as [h| |] eqn:Eh; cbn; try discriminate;
     intros _; destruct (calculateHash_set_amount t v h Eh) as [h' ->]; cbn; eauto).
Qed.

Lemma validAll_tamper (l l' : list Transaction.t) :
  Block.validAll l = Ok true -> Forall2 amount_tamper l l' ->
  exists b, Block.validAll l' = Ok b.
Proof.
  intros Hv Hf; induction Hf as [|x x' l l' Hx Hf IH]; [eauto|].
  simpl in Hv |- *.
  destruct (Transaction.isValid x) as [[|]| |] eqn:Ex; cbn in Hv; try discriminate.
  destruct (isValid_tamper x x' Ex Hx) as [[|] ->]; cbn; eauto.
Qed.

Lemma hasValidTransactions_tamper (b b' : Block.t) :
  Block.hasValidTransactions b = Ok true -> block_tamper b b' ->
  exists r, Block.hasValidTransactions b' = Ok r.
Proof.
  intros Hv [-> | (l & l' & Hl & -> & Hf)]; [eauto|].
  unfold Block.hasValidTransactions in *; rewrite Hl in Hv; cbn.
  exact (validAll_tamper l l' Hv Hf).
Qed.

Lemma block_calculateHash_json (b b' : Block.t) :
  Block.previousHash b' = Block.previousHash b ->
  Block.timestamp b' = Block.timestamp b ->
  Block.nonce b' = Block.nonce b ->
  Block.calculateHash b' = Block.calculateHash b ->
  Block.json_txs (Block.transactions b') = Block.json_txs (Block.transactions b).
Proof.
  unfold Block.calculateHash; intros -> -> -> Heq.
  apply sha256_inj, str_app_cancel_l, str_app_cancel_l, str_app_cancel_r in Heq.
  exact Heq.
Qed.

Lemma checkBlocks_tamper (p p' : Block.t) (rest rest' : list Block.t) :
  Block.hash p' = Block.hash p ->
  Blockchain.checkBlocks p rest = Ok true ->
  Forall2 block_tamper rest rest' ->
  Exists amount_changed (combine rest rest') ->
  Blockchain.checkBlocks p' rest' = Ok false.
Proof.
  intros Hp Hc Hf; revert p p' Hp Hc.
  induction Hf as [|cur cur' rest rest' Hb Hf IH]; intros p p' Hp Hc Hex;
    [inversion Hex|].
  rewrite checkBlocks_cons in Hc |- *.
  destruct (String.eqb (Block.hash p) (Block.previousHash cur)) eqn:El;
    simpl in Hc; [|discriminate].
  destruct (Block.hasValidTransactions cur) as [[|]| |] eqn:Ev; try discriminate.
  destruct (String.eqb (Block.hash cur) (Block.calculateHash cur)) eqn:Eh;
    simpl in Hc; [|discriminate].
  apply String.eqb_eq in El, Eh.
  assert (Hfields : Block.hash cur' = Block.hash cur /\
                    Block.previousHash cur' = Block.previousHash cur /\
                    Block.timestamp cur' = Block.timestamp cur /\
                    Block.nonce cur' = Block.nonce cur)
    by (destruct Hb as [-> | (l & l' & _ & -> & _)]; auto).
  destruct Hfields as (Hh & Hph & Hts & Hn).
  rewrite Hp, El, <- Hph, String.eqb_refl; simpl.
  destruct (hasValidTransactions_tamper cur cur' Ev Hb) as [[|] ->]; [|reflexivity].
  destruct (String.eqb (Block.hash cur') (Block.calculateHash cur')) eqn:Eh'; [|reflexivity].
  simpl; apply String.eqb_eq in Eh'.
  inversion Hex as [? ? Hhere | ? ? Hthere]; subst.
  - exfalso.
    destruct Hhere as (l & l' & t & v & Hl & Hl' & Hin & Hv); simpl in Hl, Hl'.
    assert (Hf' : Forall2 amount_tamper l l').
    { destruct Hb as [-> | (l0 & l0' & Hl0 & -> & Hf0)].
      - rewrite Hl in Hl'; injection Hl' as <-.
        apply Forall2_refl; intros x; left; reflexivity.
      - rewrite Hl in Hl0; injection Hl0 as <-.
        simpl in Hl'; injection Hl' as <-; exact Hf0. }
    apply (tamper_json_txs l l' t v Hf' Hin Hv).
    rewrite <- Hl, <- Hl'; symmetry.
    apply block_calculateHash_json; auto; congruence.
  - apply (IH cur cur'); auto.
Qed.

End TamperProofs.

Section TamperTheorem.
Context `{CR : Crypto}.

(** Claim C2 (amended). Assume SHA-256 has no collisions. Take a chain for
    which [isChainValid()] returns true, keep its genesis block, and mutate,
    without recomputing any hash, the [amount] of one or more transactions
    stored in its mined blocks (a shared transaction object changes every
    place it is stored), at least one of them to a value whose JSON differs
    from the JSON of the old amount. Then [isChainValid()] returns false. *)
Theorem isChainValid_detects_amount_change (bc : Blockchain.t) (b0 : Block.t)
    (rest rest' : list Block.t) :
  (forall s1 s2, sha256 s1 = sha256 s2 -> s1 = s2) ->
  Blockchain.isChainValid bc = Ok true ->
  Blockchain.chain bc = b0 :: rest ->
  Forall2 block_tamper rest rest' ->
  Exists amount_changed (combine rest rest') ->
  Blockchain.isChainValid (Blockchain.set_chain (b0 :: rest') bc) = Ok false.
Proof.
  intros Hinj Hv Hc Hf Hex.
  unfold Blockchain.isChainValid in *; rewrite Hc in Hv; simpl.
  destruct (negb _); [discriminate|].
  exact (checkBlocks_tamper Hinj b0 b0 rest rest' eq_refl Hv Hf Hex).
Qed.

End TamperTheorem.

(** Claim C2 fails as stated: [NaN] and [Infinity] both serialize as [null],
    so changing one into the other in a transaction without sender goes
    unnoticed. *)
Lemma isChainValid_nan_counterexample :
  @Blockchain.isChainValid identityCrypto (nanChain NaN) = Ok true /\
  @Blockchain.isChainValid identityCrypto (nanChain PosInf) = Ok true /\
  Blockchain.chain (nanChain PosInf) =
    [@Blockchain.createGenesisBlock identityCrypto;
     Block.set_transactions
       (Block.TxArray [Transaction.set_amount PosInf (Transaction.new VNull (VStr "A") NaN 1)])
       (nanBlock NaN)].
Proof. vm_compute; repeat split; reflexivity. Qed.

(** ** Instances of the theorems on concrete states *)

#[local] Existing Instance identityCrypto.

Lemma addTransaction_spec_witness :
  (truthy (Transaction.fromAddress undefSenderTx) = false \/
   truthy (Transaction.toAddress undefSenderTx) = false) /\
  @Blockchain.addTransaction identityCrypto undefSenderTx minedState =
  (minedState, Throw (Error "Transaction must include from and to address")).
Proof.
  assert (H : truthy (Transaction.fromAddress undefSenderTx) = false \/
              truthy (Transaction.toAddress undefSenderTx) = false)
    by (left; reflexivity).
  split; [exact H|].
  exact (proj1 (proj2 (@addTransaction_spec identityCrypto undefSenderTx minedState)) H).
Defined.

Lemma getBalanceOfAddress_spec_witness :
  @Blockchain.minePendingTransactions identityCrypto (VStr "pubk") 1 2 1 Blockchain.new =
    (minedState, Ok tt) /\
  "x" <> "pubk" /\
  Blockchain.getBalanceOfAddress minedState (VStr "pubk") = Fin 100 /\
  Blockchain.getBalanceOfAddress minedState (VStr "x") = Fin 0.
Proof.
  assert (Hm : @Blockchain.minePendingTransactions identityCrypto (VStr "pubk") 1 2 1
                 Blockchain.new = (minedState, Ok tt)) by (vm_compute; reflexivity).
  assert (Hx : "x" <> "pubk") by discriminate.
  split; [exact Hm | split; [exact Hx|]].
  exact (proj2 (proj2 (@getBalanceOfAddress_spec identityCrypto))
           "pubk" "x" 1%Z 2%Z 1 minedState Hm Hx).
Defined.

Lemma minePendingTransactions_spec_witness :
  Blockchain.chain (@Blockchain.new identityCrypto) <> [] /\
  @Blockchain.minePendingTransactions identityCrypto (VStr "pubk") 1 2 1 Blockchain.new =
    (minedState, Ok tt) /\
  Blockchain.chain minedState = Blockchain.chain (@Blockchain.new identityCrypto) ++ [minedBlock] /\
  Blockchain.pendingTransactions minedState = [].
Proof.
  assert (Hc : Blockchain.chain (@Blockchain.new identityCrypto) <> []) by discriminate.
  assert (Hm : @Blockchain.minePendingTransactions identityCrypto (VStr "pubk") 1 2 1
                 Blockchain.new = (minedState, Ok tt)) by (vm_compute; reflexivity).
  split; [exact Hc | split; [exact Hm|]].
  destruct (@minePendingTransactions_spec identityCrypto (VStr "pubk") 1%Z 2%Z 1
              Blockchain.new minedState (Ok tt) Hc Hm) as [H | [_ H]];
    [discriminate H|].
  destruct H as (pre & latest & blk & H); cbv zeta in H.
  destruct H as (_ & _ & _ & _ & _ & _ & _ & Hchain & _ & Hpend & _).
  split; [|exact Hpend].
  unfold minedBlock; rewrite Hchain; reflexivity.
Defined.

Lemma addTransaction_pending_overdraw_witness :
  @reachable identityCrypto minedState [VStr "pubk"] /\
  (forall m, @ecVerify identityCrypto (VStr (@ecGetPublic identityCrypto "k")) m
               (@ecSign identityCrypto "k" m) = true) /\
  (forall m, @ecSign identityCrypto "k" m <> EmptyString) /\
  Blockchain.getBalanceOfAddress minedState (VStr (@ecGetPublic identityCrypto "k")) = Fin 100 /\
  exists tx1 tx2 bc1,
    @Blockchain.addTransaction identityCrypto tx1 minedState = (bc1, Ok tt) /\
    @Blockchain.addTransaction identityCrypto tx2 bc1 =
    (Blockchain.set_pendingTransactions [tx1; tx2] minedState, Ok tt) /\
    Transaction.amount tx1 = Fin 60 /\ Transaction.amount tx2 = Fin 60.
Proof.
  assert (Hv : forall m, @ecVerify identityCrypto (VStr (@ecGetPublic identityCrypto "k")) m
                           (@ecSign identityCrypto "k" m) = true)
    by (intros m; simpl; apply String.eqb_refl).
  assert (Hs : forall m, @ecSign identityCrypto "k" m <> EmptyString)
    by (intros m; simpl; discriminate).
  assert (Hb : Blockchain.getBalanceOfAddress minedState
                 (VStr (@ecGetPublic identityCrypto "k")) = Fin 100)
    by (vm_compute; reflexivity).
  assert (Hr : @reachable identityCrypto minedState [VStr "pubk"]).
  { apply (@reachable_mine identityCrypto Blockchain.new minedState [] (VStr "pubk") 1 2 1).
    - apply reachable_new.
    - vm_compute; reflexivity. }
  split; [exact Hr|].
  split; [exact Hv | split; [exact Hs | split; [exact Hb|]]].
  destruct (@addTransaction_pending_overdraw identityCrypto minedState "k" "B" "C"
              100 60 60 3 4 Hv Hs ltac:(discriminate) ltac:(discriminate) ltac:(discriminate)
              Hb ltac:(lia) ltac:(lia) ltac:(lia) ltac:(lia))
    as (tx1 & tx2 & bc1 & Hs1 & Hs2 & _ & _ & Ha1 & _ & Ha2).
  exists tx1, tx2, bc1; split; [exact Ha1 | split; [exact Ha2|]].
  simpl in Hs1, Hs2; injection Hs1 as <-; injection Hs2 as <-; split; reflexivity.
Defined.

Lemma reachable_blocks_end_with_reward_witness :
  @reachable identityCrypto minedState [VStr "pubk"] /\
  Blockchain.miningReward minedState = Fin 100 /\
  exists blocks,
    Blockchain.chain minedState = @Blockchain.createGenesisBlock identityCrypto :: blocks /\
    Forall2 (rewardShaped (Blockchain.miningReward minedState)) blocks [VStr "pubk"].
Proof.
  assert (Hr : @reachable identityCrypto minedState [VStr "pubk"]).
  { apply (@reachable_mine identityCrypto Blockchain.new minedState [] (VStr "pubk") 1 2 1).
    - apply reachable_new.
    - vm_compute; reflexivity. }
  split; [exact Hr|].
  exact (@reachable_blocks_end_with_reward identityCrypto minedState [VStr "pubk"] Hr).
Defined.

Lemma isChainValid_spec_witness :
  @Blockchain.isChainValid identityCrypto minedState = Ok true /\
  Blockchain.chain minedState = [] ++ @Blockchain.createGenesisBlock identityCrypto :: minedBlock :: [] /\
  @block_ok identityCrypto (@Blockchain.createGenesisBlock identityCrypto) minedBlock.
Proof.
  assert (Hv : @Blockchain.isChainValid identityCrypto minedState = Ok true)
    by (vm_compute; reflexivity).
  assert (Hc : Blockchain.chain minedState =
               [] ++ @Blockchain.createGenesisBlock identityCrypto :: minedBlock :: [])
    by (vm_compute; reflexivity).
  split; [exact Hv | split; [exact Hc|]].
  exact (proj2 (proj1 (proj1 (@isChainValid_spec identityCrypto minedState)) Hv) _ _ _ _ Hc).
Defined.

Lemma isChainValid_detects_amount_change_witness :
  @Blockchain.isChainValid identityCrypto minedState = Ok true /\
  Blockchain.chain minedState = [@Blockchain.createGenesisBlock identityCrypto; minedBlock] /\
  @Blockchain.isChainValid identityCrypto
    (Blockchain.set_chain [@Blockchain.createGenesisBlock identityCrypto; tamperedBlock]
       minedState) = Ok false.
Proof.
  assert (Hinj : forall s1 s2, @sha256 identityCrypto s1 = @sha256 identityCrypto s2 -> s1 = s2)
    by (intros s1 s2 H; exact H).
  assert (Hv : @Blockchain.isChainValid identityCrypto minedState = Ok true)
    by (vm_compute; reflexivity).
  assert (Hc : Blockchain.chain minedState =
               [@Blockchain.createGenesisBlock identityCrypto; minedBlock])
    by (vm_compute; reflexivity).
  assert (Ht : Block.transactions minedBlock = Block.TxArray [minedReward])
    by (vm_compute; reflexivity).
  assert (Hf : Forall2 block_tamper [minedBlock] [tamperedBlock]).
  { constructor; [|constructor].
    right; exists [minedReward], [Transaction.set_amount (Fin 1000) minedReward].
    split; [exact Ht | split; [reflexivity|]].
    constructor; [right; exists (Fin 1000); reflexivity | constructor]. }
  assert (He : Exists amount_changed (combine [minedBlock] [tamperedBlock])).
  { simpl; constructor.
    exists [minedReward], [Transaction.set_amount (Fin 1000) minedReward], minedReward, (Fin 1000).
    split; [exact Ht | split; [reflexivity | split; [left; reflexivity|]]].
    vm_compute; discriminate. }
  split; [exact Hv | split; [exact Hc|]].
  exact (@isChainValid_detects_amount_change identityCrypto minedState
           (@Blockchain.createGenesisBlock identityCrypto) [minedBlock] [tamperedBlock]
           Hinj Hv Hc Hf He).
Defined.

(** * Further properties of the code *)

Section TransactionExtra.
Context `{CR : Crypto}.

(** Extra X1. [Transaction.calculateHash()] hashes the concatenation of the
    four fields as strings when the sender or the recipient is a string; when
    neither is, the [+] chain yields a number and [update] throws a
    [TypeError]. *)
Theorem Transaction_calculateHash_spec (tx : Transaction.t) :
  ((exists s, Transaction.fromAddress tx = VStr s) \/
   (exists s, Transaction.toAddress tx = VStr s) ->
   Transaction.calculateHash tx =
   Ok (sha256 (prim_to_string (prim_of_value (Transaction.fromAddress tx))
               +++ prim_to_string (prim_of_value (Transaction.toAddress tx))
               +++ number_to_string (Transaction.amount tx)
               +++ Z_to_string (Transaction.timestamp tx)))) /\
  ((forall s, Transaction.fromAddress tx <> VStr s) ->
   (forall s, Transaction.toAddress tx <> VStr s) ->
   Transaction.calculateHash tx = Throw TypeError).
Proof.
  unfold Transaction.calculateHash.
  split.
  - intros Hs.
    destruct (Transaction.fromAddress tx) as [| |a], (Transaction.toAddress tx) as [| |b];
      try (destruct Hs as [[s Hs] | [s Hs]]; discriminate);
      cbn; rewrite ?str_append_assoc; reflexivity.
  - intros Hf Ht.
    destruct (Transaction.fromAddress tx) as [| |a];
      [| | exfalso; exact (Hf a eq_refl)];
      (destruct (Transaction.toAddress tx) as [| |b];
       [reflexivity | reflexivity | exfalso; exact (Ht b eq_refl)]).
Qed.

(** Extra X2. A signature covers the string [fromAddress + toAddress +
    amount + timestamp], not the fields: two transactions with the same
    string sender and signature whose [toAddress + amount + timestamp]
    strings coincide (say recipient ['addr1'] and amount 5 against
    recipient ['addr'] and amount 15) get the same [isValid()] result. *)
Theorem isValid_same_concatenation (tx tx' : Transaction.t) (a : string) :
  Transaction.fromAddress tx = VStr a ->
  Transaction.fromAddress tx' = VStr a ->
  Transaction.signature tx' = Transaction.signature tx ->
  prim_to_string (prim_of_value (Transaction.toAddress tx'))
    +++ number_to_string (Transaction.amount tx') +++ Z_to_string (Transaction.timestamp tx') =
  prim_to_string (prim_of_value (Transaction.toAddress tx))
    +++ number_to_string (Transaction.amount tx) +++ Z_to_string (Transaction.timestamp tx) ->
  Transaction.isValid tx' = Transaction.isValid tx.
Proof.
  intros Hf Hf' Hs Hc.
  unfold Transaction.isValid; rewrite Hf, Hf', Hs.
  rewrite (calculateHash_string_from a tx Hf), (calculateHash_string_from a tx' Hf').
  rewrite Hc; reflexivity.
Qed.

(** Extra X3. Signing again with the key that signed a transaction changes
    nothing: the digest ignores the signature, so the same signature is
    stored again. *)
Theorem signTransaction_twice (k : string) (tx tx' : Transaction.t) :
  Transaction.signTransaction k tx = (tx', Ok tt) ->
  Transaction.signTransaction k tx' = (tx', Ok tt).
Proof.
  unfold Transaction.signTransaction, bind, get, put, throw, lift.
  destruct (negb (strict_eqb (VStr (ecGetPublic k)) (Transaction.fromAddress tx))) eqn:Ef;
    [discriminate|].
  destruct (Transaction.calculateHash tx) as [h| |] eqn:Eh; try discriminate.
  intros Heq; injection Heq as <-.
  assert (Eh' : Transaction.calculateHash
                  (Transaction.set_signature (ecSign k h) tx) = Ok h) by exact Eh.
  cbn [Transaction.set_signature Transaction.fromAddress] in *.
  rewrite Ef, Eh'; reflexivity.
Qed.

End TransactionExtra.

Section BlockExtra.
Context `{CR : Crypto}.

Lemma isValid_no_fuel (tx : Transaction.t) : Transaction.isValid tx <> OutOfFuel.
Proof.
  intros H; apply (validAll_no_fuel [tx]); simpl; rewrite H; reflexivity.
Qed.

Lemma validAll_true (l : list Transaction.t) :
  Block.validAll l = Ok true <-> Forall (fun tx => Transaction.isValid tx = Ok true) l.
Proof.
  induction l as [|tx l IH]; simpl; [split; auto|].
  destruct (Transaction.isValid tx) as [[|]|e|] eqn:E; cbn.
  - rewrite IH; split; [intros H; constructor; auto | intros H; inversion H; auto].
  - split; [discriminate | intros H; inversion H; congruence].
  - split; [discriminate | intros H; inversion H; congruence].
  - split; [discriminate | intros H; inversion H; congruence].
Qed.

(** Any result other than [true] comes from the first transaction whose
    [isValid()] does not return [true]. *)
Lemma validAll_first (l : list Transaction.t) (r : outcome bool) :
  r <> Ok true -> r <> OutOfFuel ->
  Block.validAll l = r <->
  exists pre tx post,
    l = pre ++ tx :: post /\
    Forall (fun tx => Transaction.isValid tx = Ok true) pre /\
    Transaction.isValid tx = r.
Proof.
  intros Hr1 Hr2; induction l as [|x l IH]; simpl.
  - split; [intros H; congruence|].
    intros (pre & tx & post & Heq & _); destruct pre; discriminate.
  - destruct (Transaction.isValid x) as [[|]|e|] eqn:E; cbn.
    + rewrite IH; split.
      * intros (pre & tx & post & -> & Hpre & Hv).
        exists (x :: pre), tx, post; repeat split; auto.
      * intros ([|y pre] & tx & post & Heq & Hpre & Hv); simpl in Heq;
          injection Heq as <- Heq; [congruence|].
        inversion Hpre; subst; exists pre, tx, post; auto.
    + split.
      * intros <-; exists [], x, l; auto.
      * intros ([|y pre] & tx & post & Heq & Hpre & Hv); simpl in Heq;
          injection Heq as <- Heq; [congruence|].
        inversion Hpre; congruence.
    + split.
      * intros <-; exists [], x, l; auto.
      * intros ([|y pre] & tx & post & Heq & Hpre & Hv); simpl in Heq;
          injection Heq as <- Heq; [congruence|].
        inversion Hpre; congruence.
    + exfalso; exact (isValid_no_fuel x E).
Qed.

(** Extra X4. On a block whose transactions are an array, [hasValidTransactions()]
    returns true exactly when every transaction's [isValid()] returns true;
    otherwise the first transaction whose [isValid()] does not return true
    decides: it returns false if that call returned false, and the error is
    propagated if that call raised one. *)
Theorem hasValidTransactions_spec (b : Block.t) (l : list Transaction.t) :
  Block.transactions b = Block.TxArray l ->
  (Block.hasValidTransactions b = Ok true <->
   Forall (fun tx => Transaction.isValid tx = Ok true) l) /\
  (forall r, r = Ok false \/ (exists e, r = Throw e) ->
   Block.hasValidTransactions b = r <->
   exists pre tx post,
     l = pre ++ tx :: post /\
     Forall (fun tx => Transaction.isValid tx = Ok true) pre /\
     Transaction.isValid tx = r).
Proof.
  intros Hl; unfold Block.hasValidTransactions; rewrite Hl.
  split; [apply validAll_true|].
  intros r Hr; apply validAll_first;
    destruct Hr as [-> | [e ->]]; discriminate.
Qed.

End BlockExtra.

Section WalletExtra.

Lemma fold_push {A : Type} (f : A -> bool) (l acc : list A) :
  fold_left (fun txs x => if f x then txs ++ [x] else txs) l acc = acc ++ filter f l.
Proof.
  revert acc; induction l as [|x l IH]; intros acc; simpl; [now rewrite app_nil_r|].
  destruct (f x); rewrite IH; [now rewrite <- app_assoc | reflexivity].
Qed.

Lemma getAll_fold (address : value) (c : list Block.t) (acc : list Blockchain.item) :
  fold_left (fun txs block =>
               fold_left (fun txs tx =>
                            if strict_eqb (Blockchain.item_from tx) address
                               || strict_eqb (Blockchain.item_to tx) address
                            then txs ++ [tx] else txs)
                         (Blockchain.items block) txs) c acc =
  acc ++ filter (wallet_item address) (flat_map Blockchain.items c).
Proof.
  revert acc; induction c as [|b c IH]; intros acc; simpl; [now rewrite app_nil_r|].
  rewrite (fold_push (fun tx => strict_eqb (Blockchain.item_from tx) address
                                || strict_eqb (Blockchain.item_to tx) address)).
  rewrite IH, filter_app, app_assoc; reflexivity.
Qed.

Lemma getAll_filter (bc : Blockchain.t) (address : value) :
  getAllTransactionsForWallet bc address =
  filter (wallet_item address) (flat_map Blockchain.items (Blockchain.chain bc)).
Proof. unfold getAllTransactionsForWallet; rewrite getAll_fold; reflexivity. Qed.

Lemma getAll_string_items (s : string) (c : list Block.t) :
  filter (wallet_item (VStr s)) (flat_map Blockchain.items c) =
  map Blockchain.ITx
    (filter (fun tx => strict_eqb (Transaction.fromAddress tx) (VStr s)
                       || strict_eqb (Transaction.toAddress tx) (VStr s))
            (flat_map block_transactions c)).
Proof.
  induction c as [|b c IH]; [reflexivity|].
  simpl; rewrite filter_app, filter_app, map_app, IH; f_equal.
  unfold Blockchain.items, block_transactions.
  destruct (Block.transactions b) as [l|str].
  - induction l as [|tx l IHl]; [reflexivity|].
    simpl; unfold wallet_item at 1; simpl.
    destruct (_ || _); simpl; now rewrite IHl.
  - simpl; induction (list_ascii_of_string str) as [|ch cs IHc]; [reflexivity|].
    exact IHc.
Qed.

(** Extra X5. [getAllTransactionsForWallet(address)] returns, in chain order,
    every element of every block's [transactions] whose sender or recipient
    is [address]; for a string address these are exactly the transactions
    (never characters of the genesis string) that send to or from it. *)
Theorem getAllTransactionsForWallet_spec (bc : Blockchain.t) (address : value) :
  getAllTransactionsForWallet bc address =
  filter (fun it => strict_eqb (Blockchain.item_from it) address
                    || strict_eqb (Blockchain.item_to it) address)
         (flat_map Blockchain.items (Blockchain.chain bc)) /\
  (forall s, address = VStr s ->
   getAllTransactionsForWallet bc address =
   map Blockchain.ITx
     (filter (fun tx => strict_eqb (Transaction.fromAddress tx) address
                        || strict_eqb (Transaction.toAddress tx) address)
             (flat_map block_transactions (Blockchain.chain bc)))).
Proof.
  split; [apply getAll_filter|].
  intros s ->; rewrite getAll_filter; apply getAll_string_items.
Qed.

Lemma getBalance_flat (bc : Blockchain.t) (address : value) :
  Blockchain.getBalanceOfAddress bc address =
  fold_left (Blockchain.balance_step address)
            (flat_map Blockchain.items (Blockchain.chain bc)) (Fin 0).
Proof.
  unfold Blockchain.getBalanceOfAddress; generalize (Fin 0) as bal.
  induction (Blockchain.chain bc) as [|b c IH]; intros bal; [reflexivity|].
  simpl; rewrite fold_left_app; apply IH.
Qed.

Lemma balance_step_other (address : value) (bal : number) (it : Blockchain.item) :
  wallet_item address it = false -> Blockchain.balance_step address bal it = bal.
Proof.
  unfold wallet_item, Blockchain.balance_step; intros H.
  apply orb_false_iff in H as [H1 H2]; rewrite H1, H2; reflexivity.
Qed.

Lemma fold_balance_filter (address : value) (l : list Blockchain.item) (bal : number) :
  fold_left (Blockchain.balance_step address) l bal =
  fold_left (Blockchain.balance_step address) (filter (wallet_item address) l) bal.
Proof.
  revert bal; induction l as [|it l IH]; intros bal; [reflexivity|].
  simpl; destruct (wallet_item address it) eqn:E; simpl; [apply IH|].
  rewrite balance_step_other by exact E; apply IH.
Qed.

(** Extra X6. The balance of an address is the running sum over the list
    [getAllTransactionsForWallet(address)] returns: no other element of the
    chain changes it. *)
Theorem getBalanceOfAddress_wallet (bc : Blockchain.t) (address : value) :
  Blockchain.getBalanceOfAddress bc address =
  fold_left (Blockchain.balance_step address) (getAllTransactionsForWallet bc address) (Fin 0).
Proof.
  rewrite getBalance_flat, getAll_filter; apply fold_balance_filter.
Qed.

Lemma fold_balance_nan (address : value) (l : list Blockchain.item) :
  fold_left (Blockchain.balance_step address) l NaN = NaN.
Proof.
  induction l as [|it l IH]; [reflexivity|].
  simpl; unfold Blockchain.balance_step at 2.
  destruct (strict_eqb (Blockchain.item_from it) address);
    destruct (strict_eqb (Blockchain.item_to it) address); exact IH.
Qed.

Lemma num_sub_nan (x : number) : num_sub x NaN = NaN.
Proof. destruct x; reflexivity. Qed.

Lemma num_add_nan (x : number) : num_add x NaN = NaN.
Proof. destruct x; reflexivity. Qed.

(** Extra X7. [NaN] is absorbing in the balance: once the chain holds an
    element sending to or from an address with amount [NaN] (a transaction,
    or a character of the genesis string for the address [undefined]), the
    balance of that address is [NaN]. *)
Theorem getBalanceOfAddress_nan (bc : Blockchain.t) (address : value) (it : Blockchain.item) :
  In it (flat_map Blockchain.items (Blockchain.chain bc)) ->
  strict_eqb (Blockchain.item_from it) address = true \/
  strict_eqb (Blockchain.item_to it) address = true ->
  Blockchain.item_amount it = NaN ->
  Blockchain.getBalanceOfAddress bc address = NaN.
Proof.
  intros Hin Hm Ha; rewrite getBalance_flat.
  apply in_split in Hin as (l1 & l2 & ->).
  rewrite fold_left_app; simpl.
  assert (Hs : forall bal, Blockchain.balance_step address bal it = NaN).
  { intros bal; unfold Blockchain.balance_step; rewrite Ha.
    destruct Hm as [Hm | Hm]; rewrite Hm.
    - rewrite num_sub_nan; destruct (strict_eqb (Blockchain.item_to it) address); reflexivity.
    - destruct (strict_eqb _ _); apply num_add_nan. }
  rewrite Hs; apply fold_balance_nan.
Qed.

End WalletExtra.

Section MiningExtra.
Context `{CR : Crypto}.

(** Extra X8. Mining composes with the balance: after
    [minePendingTransactions(miner)] returns, the balance of every address is
    its old balance continued over the mined pending pool followed by the
    reward transaction. *)
Theorem getBalanceOfAddress_after_mining (addr : value) (now_tx now_block : Z) (fuel : nat)
    (bc bc' : Blockchain.t) (address : value) :
  Blockchain.chain bc <> [] ->
  Blockchain.minePendingTransactions addr now_tx now_block fuel bc = (bc', Ok tt) ->
  Blockchain.getBalanceOfAddress bc' address =
  fold_left (Blockchain.balance_step address)
    (map Blockchain.ITx
       (Blockchain.pendingTransactions bc ++
        [Transaction.new VNull addr (Blockchain.miningReward bc) now_tx]))
    (Blockchain.getBalanceOfAddress bc address).
Proof.
  intros Hc Hm.
  destruct (chain_last _ Hc) as (pre & latest & Hl).
  destruct (minePendingTransactions_ok _ _ _ _ _ _ _ _ Hl Hm) as (blk & Hb & ->).
  destruct (mineBlock_fields _ _ _ _ Hb) as (_ & _ & Ht).
  rewrite !getBalance_flat; simpl.
  rewrite flat_map_app, fold_left_app; simpl.
  unfold Blockchain.items at 1; rewrite Ht; simpl; rewrite app_nil_r; reflexivity.
Qed.

(** Extra X9. The two amount checks of [addTransaction] let [NaN] through
    ([NaN <= 0] and [balance < NaN] are both false): a transaction with both
    addresses, a valid signature and amount [NaN] is accepted into the
    pending pool whatever the sender's balance. *)
Theorem addTransaction_accepts_nan (tx : Transaction.t) (bc : Blockchain.t) :
  truthy (Transaction.fromAddress tx) = true ->
  truthy (Transaction.toAddress tx) = true ->
  Transaction.isValid tx = Ok true ->
  Transaction.amount tx = NaN ->
  Blockchain.addTransaction tx bc =
  (Blockchain.set_pendingTransactions (Blockchain.pendingTransactions bc ++ [tx]) bc, Ok tt).
Proof.
  intros Hf Ht Hv Ha; rewrite addTransaction_unfold, Hf, Ht, Hv, Ha; simpl.
  destruct (Blockchain.getBalanceOfAddress bc (Transaction.fromAddress tx)); reflexivity.
Qed.

End MiningExtra.

Section MineBlockExtra.
Context `{CR : Crypto}.

(** Extra X10. The proof-of-work search stops at the first nonce: started on
    a block whose stored hash is up to date, [mineBlock(d)] returns the block
    with only [nonce] and [hash] changed, its nonce the smallest one from the
    starting nonce on whose recomputed hash starts with [d] zeros, and the
    hash recomputed for that nonce. *)
Theorem mineBlock_first_nonce (d fuel : nat) (b b' : Block.t) :
  Block.mineBlock d fuel b = Ok b' ->
  Block.hash b = Block.calculateHash b ->
  Block.nonce b <= Block.nonce b' /\
  b' = Block.set_hash (Block.calculateHash (Block.set_nonce (Block.nonce b') b))
                      (Block.set_nonce (Block.nonce b') b) /\
  substring 0 d (Block.hash b') = Block.zeros d /\
  (forall n, Block.nonce b <= n < Block.nonce b' ->
   substring 0 d (Block.calculateHash (Block.set_nonce n b)) <> Block.zeros d).
Proof.
  revert b; induction fuel as [|f IH]; intros b Hm Hh; simpl in Hm; [discriminate|].
  destruct b as [p t x n h]; cbn [Block.hash Block.nonce] in *.
  destruct (String.eqb (substring 0 d h) (Block.zeros d)) eqn:E.
  - injection Hm as <-; apply String.eqb_eq in E; cbn [Block.nonce Block.hash].
    split; [lia|]; split; [|split; [exact E | intros m Hn; lia]].
    unfold Block.set_hash, Block.set_nonce;
    cbn [Block.previousHash Block.timestamp Block.transactions Block.nonce Block.hash].
    f_equal; exact Hh.
  - destruct (IH _ Hm eq_refl) as (Hle & Heq & Ht & Hr).
    cbn [Block.set_hash Block.set_nonce Block.previousHash Block.timestamp
         Block.transactions Block.nonce Block.hash] in Hle, Heq, Hr.
    split; [lia|]; split; [exact Heq|]; split; [exact Ht|].
    intros m Hn.
    destruct (Nat.eq_dec m n) as [-> | Hne].
    + unfold Block.set_nonce;
      cbn [Block.previousHash Block.timestamp Block.transactions Block.hash].
      intros E'; assert (Hs : substring 0 d h = Block.zeros d)
        by (rewrite Hh; exact E').
      rewrite Hs, String.eqb_refl in E; discriminate.
    + apply (Hr m); lia.
Qed.

End MineBlockExtra.

Section ChainInvariant.
Context `{CR : Crypto}.

(** Mining keeps a stored hash up to date. *)
Lemma mineBlock_hash_consistent (d fuel : nat) (b b' : Block.t) :
  Block.mineBlock d fuel b = Ok b' ->
  Block.hash b = Block.calculateHash b -> Block.hash b' = Block.calculateHash b'.
Proof.
  revert b; induction fuel as [|fuel IH]; intros b Hm Hh; simpl in Hm; [discriminate|].
  destruct (String.eqb _ _).
  - injection Hm as <-; exact Hh.
  - apply (IH _ Hm); reflexivity.
Qed.

(** Appending a block linked to the last one keeps the loop of
    [isChainValid] at [true]. *)
Lemma checkBlocks_snoc (p : Block.t) (rest pre : list Block.t) (latest blk : Block.t) :
  Blockchain.checkBlocks p rest = Ok true ->
  p :: rest = pre ++ [latest] ->
  block_ok latest blk ->
  Blockchain.checkBlocks p (rest ++ [blk]) = Ok true.
Proof.
  revert p pre; induction rest as [|cur rest IH]; intros p pre Hc Heq Hok.
  - assert (p = latest) as ->
      by (destruct pre as [|x [|y pre]]; simpl in Heq; congruence).
    destruct Hok as (El & Ev & Eh); simpl app.
    rewrite checkBlocks_cons, El, String.eqb_refl, Ev; cbn [negb].
    rewrite Eh, String.eqb_refl; reflexivity.
  - destruct pre as [|x pre']; simpl in Heq;
      [injection Heq as _ Hn; destruct rest; discriminate|].
    injection Heq as _ Heq.
    simpl app; rewrite checkBlocks_cons in Hc |- *.
    destruct (negb _); [discriminate|].
    destruct (Block.hasValidTransactions cur) as [[|]|e|]; try discriminate.
    destruct (negb _); [discriminate|].
    exact (IH cur pre' Hc Heq Hok).
Qed.

Lemma chain_invariant_new : chain_invariant Blockchain.new.
Proof. split; [exists []; split; reflexivity | constructor]. Qed.

Lemma chain_invariant_add (bc bc' : Blockchain.t) (tx : Transaction.t) (r : outcome unit) :
  chain_invariant bc -> Blockchain.addTransaction tx bc = (bc', r) -> chain_invariant bc'.
Proof.
  intros [Hc Hp] Ha; rewrite addTransaction_unfold in Ha.
  destruct (_ || _); [injection Ha as <- _; split; auto|].
  destruct (Transaction.isValid tx) as [[|]|e|] eqn:Ev;
    try (injection Ha as <- _; split; auto; fail).
  destruct (num_le _ _); [injection Ha as <- _; split; auto|].
  destruct (num_lt _ _); [injection Ha as <- _; split; auto|].
  injection Ha as <- _; split; [exact Hc|].
  simpl; apply Forall_app; split; auto.
Qed.

Lemma chain_invariant_nonempty (bc : Blockchain.t) :
  chain_invariant bc -> Blockchain.chain bc <> [].
Proof. intros [[rest [Hc _]] _]; rewrite Hc; discriminate. Qed.

Lemma chain_invariant_mine (bc bc' : Blockchain.t) (m : value)
    (now_tx now_block : Z) (fuel : nat) :
  chain_invariant bc ->
  Blockchain.minePendingTransactions m now_tx now_block fuel bc = (bc', Ok tt) ->
  chain_invariant bc'.
Proof.
  intros Hi Hm.
  destruct (chain_last _ (chain_invariant_nonempty _ Hi)) as [pre [latest Hl]].
  destruct Hi as [[rest [Hc Hk]] Hp].
  destruct (minePendingTransactions_ok _ _ _ _ _ _ _ _ Hl Hm) as [blk [Hb ->]].
  destruct (mineBlock_fields _ _ _ _ Hb) as (Hprev & _ & Hx).
  split; [|constructor].
  exists (rest ++ [blk]); split; [simpl; rewrite Hc; reflexivity|].
  apply (checkBlocks_snoc _ _ pre latest); [exact Hk | rewrite <- Hc; exact Hl|].
  split; [|split].
  - rewrite Hprev; reflexivity.
  - unfold Block.hasValidTransactions; rewrite Hx; apply validAll_true.
    apply Forall_app; split; [exact Hp | constructor; [reflexivity | constructor]].
  - apply (mineBlock_hash_consistent _ _ _ _ Hb); reflexivity.
Qed.

Lemma chain_invariant_mine_throw (bc bc' : Blockchain.t) (m : value)
    (now_tx now_block : Z) (fuel : nat) (e : exn) :
  chain_invariant bc ->
  Blockchain.minePendingTransactions m now_tx now_block fuel bc = (bc', Throw e) ->
  False.
Proof.
  intros Hi Hm.
  destruct (chain_last _ (chain_invariant_nonempty _ Hi)) as [pre [latest Hl]].
  rewrite (minePendingTransactions_run _ _ _ _ _ _ _ Hl) in Hm; cbv zeta in Hm.
  destruct (Block.mineBlock _ _ _) as [blk|e'|] eqn:Hb; try discriminate.
  eapply mineBlock_no_throw; exact Hb.
Qed.

Lemma chain_invariant_valid (bc : Blockchain.t) :
  chain_invariant bc -> Blockchain.isChainValid bc = Ok true.
Proof.
  intros [[rest [Hc Hk]] _]; unfold Blockchain.isChainValid; rewrite Hc.
  rewrite String.eqb_refl; exact Hk.
Qed.

Lemma reachable_chain_invariant (bc : Blockchain.t) (ms : list value) :
  reachable bc ms -> chain_invariant bc.
Proof.
  induction 1 as [| ? ? ? ? ? _ IH Ha | ? ? ? ? ? ? ? _ IH Hm | ? ? ? ? ? ? ? ? _ IH Hm].
  - apply chain_invariant_new.
  - eapply chain_invariant_add; eassumption.
  - eapply chain_invariant_mine; eassumption.
  - exfalso; eapply chain_invariant_mine_throw; eassumption.
Qed.

End ChainInvariant.

Section ReachableExtra.
Context `{CR : Crypto}.

(** Extra X11. Whatever sequence of [addTransaction] and
    [minePendingTransactions] calls produced a blockchain, successful or
    not, [isChainValid()] returns [true] on it, and every transaction in
    its pending pool is valid. *)
Theorem reachable_isChainValid (bc : Blockchain.t) (ms : list value) :
  reachable bc ms ->
  Blockchain.isChainValid bc = Ok true /\
  Forall (fun tx => Transaction.isValid tx = Ok true) (Blockchain.pendingTransactions bc).
Proof.
  intros Hr; pose proof (reachable_chain_invariant _ _ Hr) as Hi.
  split; [apply chain_invariant_valid; exact Hi | exact (proj2 Hi)].
Qed.

End ReachableExtra.

Section DriverProofs.
Context `{CR : Crypto}.

Lemma bind_Ok {S A B} (m : ST S A) (k : A -> ST S B) (s s' : S) (a : A) :
  m s = (s', Ok a) -> bind m k s = k a s'.
Proof. intros H; unfold bind; rewrite H; reflexivity. Qed.

Lemma bind_OutOfFuel {S A B} (m : ST S A) (k : A -> ST S B) (s s' : S) :
  m s = (s', OutOfFuel) -> bind m k s = (s', OutOfFuel).
Proof. intros H; unfold bind; rewrite H; reflexivity. Qed.

Lemma bind_lift_Ok {S A B} (a : A) (k : A -> ST S B) (s : S) :
  bind (lift (Ok a)) k s = k a s.
Proof. reflexivity. Qed.

Lemma bind_get {S B} (k : S -> ST S B) (s : S) : bind get k s = k s s.
Proof. reflexivity. Qed.

(** On a state of the invariant, mining either runs out of fuel or appends
    one block holding the pending pool and the reward. *)
Lemma mine_step (m : value) (now_tx now_block : Z) (fuel : nat) (bc : Blockchain.t) :
  chain_invariant bc ->
  (exists bc', Blockchain.minePendingTransactions m now_tx now_block fuel bc = (bc', OutOfFuel)) \/
  (exists blk,
     block_transactions blk =
       Blockchain.pendingTransactions bc ++
       [Transaction.new VNull m (Blockchain.miningReward bc) now_tx] /\
     Blockchain.minePendingTransactions m now_tx now_block fuel bc =
     (Blockchain.mk (Blockchain.chain bc ++ [blk]) (Blockchain.difficulty bc) []
                    (Blockchain.miningReward bc), Ok tt)).
Proof.
  intros Hi; destruct (chain_last _ (chain_invariant_nonempty _ Hi)) as [pre [latest Hl]].
  rewrite (minePendingTransactions_run _ _ _ _ _ _ _ Hl); cbv zeta.
  destruct (Block.mineBlock _ _ _) as [blk|e|] eqn:Hb.
  - right; exists blk; split; [|reflexivity].
    unfold block_transactions; rewrite (proj2 (proj2 (mineBlock_fields _ _ _ _ Hb))).
    reflexivity.
  - exfalso; eapply mineBlock_no_throw; exact Hb.
  - left; eexists; reflexivity.
Qed.

End DriverProofs.

Section DriverExtra.
Context `{CR : Crypto}.

(** Extra X12. The example driver (src/unnamed/part_001): for a key whose
    public key is a non-empty string other than ["address2"] and
    ["address3"], whose signatures are non-empty and verify against the
    public key, the program either keeps mining for ever or prints an empty
    line, the balances 150, 100 and 50 of the wallet, ["address2"] and
    ["address3"], an empty line and ["Blockchain valid? Yes"]; it raises no
    error. *)
Theorem main_output (k : string) (t1 t2 t3 t4 t5 t6 t7 t8 : Z) (fuel : nat) :
  ecGetPublic k <> EmptyString ->
  ecGetPublic k <> "address2" -> ecGetPublic k <> "address3" ->
  (forall m, ecVerify (VStr (ecGetPublic k)) m (ecSign k m) = true) ->
  (forall m, ecSign k m <> EmptyString) ->
  snd (main k t1 t2 t3 t4 t5 t6 t7 t8 fuel) = OutOfFuel \/
  snd (main k t1 t2 t3 t4 t5 t6 t7 t8 fuel) =
    Ok [EmptyString; "Balance of myWalletAddress is 150"; "Balance of address2 is 100";
        "Balance of address3 is 50"; EmptyString; "Blockchain valid? Yes"].
Proof.
  intros Hpe H2 H3 Hv Hs.
  unfold main, main_body; cbv zeta.
  set (pub := ecGetPublic k) in *.
  assert (E2 : String.eqb pub "address2" = false) by (apply String.eqb_neq; exact H2).
  assert (E3 : String.eqb pub "address3" = false) by (apply String.eqb_neq; exact H3).
  assert (E2' : String.eqb "address2" pub = false) by (apply String.eqb_neq; congruence).
  assert (E3' : String.eqb "address3" pub = false) by (apply String.eqb_neq; congruence).
  pose proof chain_invariant_new as I0.
  destruct (mine_step (VStr pub) t1 t2 fuel _ I0) as [[bc1 Hm1] | [blk1 [Hx1 Hm1]]];
    [left; rewrite (bind_OutOfFuel _ _ _ _ Hm1); reflexivity|].
  pose proof (chain_invariant_mine _ _ _ _ _ _ I0 Hm1) as I1.
  rewrite (bind_Ok _ _ _ _ _ Hm1).
  (* the first transaction *)
  destruct (signTransaction_own k (Transaction.new (VStr pub) (VStr "address2") (Fin 100) t3)
              eq_refl) as [h1 [Hh1 Hs1]].
  rewrite Hs1; cbv beta iota; rewrite bind_lift_Ok.
  assert (Hb1 : Blockchain.getBalanceOfAddress
                  (Blockchain.mk (Blockchain.chain Blockchain.new ++ [blk1])
                     (Blockchain.difficulty Blockchain.new) []
                     (Blockchain.miningReward Blockchain.new)) (VStr pub) = Fin 100).
  { rewrite getBalance_string; unfold balance_spec_txs.
    cbn [Blockchain.chain Blockchain.new app flat_map].
    rewrite Hx1; simpl; rewrite String.eqb_refl; reflexivity. }
  pose proof (addTransaction_accepts _
                (Transaction.set_signature (ecSign k h1)
                   (Transaction.new (VStr pub) (VStr "address2") (Fin 100) t3))
                pub 100 100 eq_refl Hpe eq_refl
                (isValid_signed k (Transaction.new (VStr pub) (VStr "address2") (Fin 100) t3)
                   h1 eq_refl Hh1 (Hv h1) (Hs h1)) eq_refl
                ltac:(lia) ltac:(lia) Hb1) as Ha1.
  pose proof (chain_invariant_add _ _ _ _ I1 Ha1) as I2.
  rewrite (bind_Ok _ _ _ _ _ Ha1).
  set (bc2 := Blockchain.set_pendingTransactions _ _) in *.
  (* the second block *)
  destruct (mine_step (VStr pub) t4 t5 fuel _ I2) as [[bc3 Hm2] | [blk2 [Hx2 Hm2]]];
    [left; rewrite (bind_OutOfFuel _ _ _ _ Hm2); reflexivity|].
  pose proof (chain_invariant_mine _ _ _ _ _ _ I2 Hm2) as I3.
  rewrite (bind_Ok _ _ _ _ _ Hm2).
  set (bc3 := Blockchain.mk (Blockchain.chain bc2 ++ [blk2]) _ _ _) in *.
  (* the second transaction *)
  destruct (signTransaction_own k (Transaction.new (VStr pub) (VStr "address3") (Fin 50) t6)
              eq_refl) as [h2 [Hh2 Hs2]].
  rewrite Hs2; cbv beta iota; rewrite bind_lift_Ok.
  assert (Hb2 : Blockchain.getBalanceOfAddress bc3 (VStr pub) = Fin 100).
  { rewrite getBalance_string; unfold balance_spec_txs, bc3, bc2.
    cbn [Blockchain.chain Blockchain.new Blockchain.set_pendingTransactions app flat_map].
    rewrite Hx1, Hx2; cbn -[String.eqb]; rewrite String.eqb_refl, E2'; reflexivity. }
  pose proof (addTransaction_accepts _
                (Transaction.set_signature (ecSign k h2)
                   (Transaction.new (VStr pub) (VStr "address3") (Fin 50) t6))
                pub 50 100 eq_refl Hpe eq_refl
                (isValid_signed k (Transaction.new (VStr pub) (VStr "address3") (Fin 50) t6)
                   h2 eq_refl Hh2 (Hv h2) (Hs h2)) eq_refl
                ltac:(lia) ltac:(lia) Hb2) as Ha2.
  pose proof (chain_invariant_add _ _ _ _ I3 Ha2) as I4.
  rewrite (bind_Ok _ _ _ _ _ Ha2).
  (* the third block *)
  destruct (mine_step (VStr pub) t7 t8 fuel _ I4) as [[bc5 Hm3] | [blk3 [Hx3 Hm3]]];
    [left; rewrite (bind_OutOfFuel _ _ _ _ Hm3); reflexivity|].
  pose proof (chain_invariant_mine _ _ _ _ _ _ I4 Hm3) as I5.
  rewrite (bind_Ok _ _ _ _ _ Hm3).
  (* the report *)
  rewrite bind_get; cbv zeta.
  rewrite (chain_invariant_valid _ I5), bind_lift_Ok.
  right; unfold ret; cbn [snd].
  rewrite !getBalance_string; unfold balance_spec_txs, bc3, bc2.
  cbn [Blockchain.chain Blockchain.new Blockchain.set_pendingTransactions app flat_map].
  rewrite Hx1, Hx2, Hx3; cbn -[String.eqb].
  rewrite String.eqb_refl, E2, E3, E2', E3'; reflexivity.
Qed.

End DriverExtra.

(** ** Instances of the further properties *)

Lemma Transaction_calculateHash_spec_witness :
  Transaction.calculateHash minedReward = Ok "nullpubk1001" /\
  Transaction.calculateHash (Transaction.new VNull VNull (Fin 1) 1) = Throw TypeError.
Proof.
  split.
  - rewrite (proj1 (Transaction_calculateHash_spec minedReward)
               (or_intror (ex_intro _ "pubk" eq_refl))).
    vm_compute; reflexivity.
  - apply (proj2 (Transaction_calculateHash_spec (Transaction.new VNull VNull (Fin 1) 1)));
      intros s; discriminate.
Defined.

Lemma isValid_same_concatenation_witness :
  Transaction.isValid concatTxB = Transaction.isValid concatTxA /\
  Transaction.isValid concatTxA = Ok true.
Proof.
  split.
  - apply (isValid_same_concatenation concatTxA concatTxB "pubk");
      vm_compute; reflexivity.
  - vm_compute; reflexivity.
Defined.

Lemma signTransaction_twice_witness :
  Transaction.signTransaction "k" plainTx = (Transaction.set_signature "k:pubkB11" plainTx, Ok tt) /\
  Transaction.signTransaction "k" (Transaction.set_signature "k:pubkB11" plainTx) =
  (Transaction.set_signature "k:pubkB11" plainTx, Ok tt).
Proof.
  assert (H : Transaction.signTransaction "k" plainTx =
              (Transaction.set_signature "k:pubkB11" plainTx, Ok tt))
    by (vm_compute; reflexivity).
  split; [exact H | exact (signTransaction_twice "k" _ _ H)].
Defined.

Lemma hasValidTransactions_spec_witness :
  Block.hasValidTransactions minedBlock = Ok true /\
  Block.hasValidTransactions (nth 1 (Blockchain.chain unsignedChain) minedBlock) =
  Throw (Error "No signature in this transaction").
Proof.
  split.
  - apply (proj1 (hasValidTransactions_spec minedBlock [minedReward]
                    ltac:(vm_compute; reflexivity))).
    constructor; [vm_compute; reflexivity | constructor].
  - apply (proj2 (hasValidTransactions_spec (nth 1 (Blockchain.chain unsignedChain) minedBlock)
                    [Transaction.new (VStr "A") (VStr "B") (Fin 5) 1]
                    ltac:(vm_compute; reflexivity)) _
                 (or_intror (ex_intro _ _ eq_refl))).
    exists [], (Transaction.new (VStr "A") (VStr "B") (Fin 5) 1), [].
    split; [reflexivity | split; [constructor | vm_compute; reflexivity]].
Defined.

Lemma getAllTransactionsForWallet_spec_witness :
  getAllTransactionsForWallet minedState (VStr "pubk") = [Blockchain.ITx minedReward].
Proof.
  rewrite (proj2 (getAllTransactionsForWallet_spec minedState (VStr "pubk")) "pubk" eq_refl).
  vm_compute; reflexivity.
Defined.

Lemma getBalanceOfAddress_nan_witness :
  Blockchain.getBalanceOfAddress Blockchain.new VUndef = NaN.
Proof.
  apply (getBalanceOfAddress_nan Blockchain.new VUndef (Blockchain.IChar "G")).
  - vm_compute; left; reflexivity.
  - left; reflexivity.
  - reflexivity.
Defined.

Lemma getBalanceOfAddress_after_mining_witness :
  Blockchain.getBalanceOfAddress minedState (VStr "pubk") = Fin 100.
Proof.
  rewrite (getBalanceOfAddress_after_mining (VStr "pubk") 1 2 1 Blockchain.new minedState
             (VStr "pubk") ltac:(discriminate) ltac:(vm_compute; reflexivity)).
  vm_compute; reflexivity.
Defined.

Lemma addTransaction_accepts_nan_witness :
  Blockchain.addTransaction nanTx Blockchain.new =
  (Blockchain.set_pendingTransactions [nanTx] Blockchain.new, Ok tt).
Proof.
  apply (addTransaction_accepts_nan nanTx Blockchain.new);
    vm_compute; reflexivity.
Defined.

Lemma mineBlock_first_nonce_witness :
  Block.nonce nonceMined = 10 /\
  (Block.nonce nonceBlock <= Block.nonce nonceMined /\
   nonceMined =
   Block.set_hash (@Block.calculateHash reverseCrypto
                     (Block.set_nonce (Block.nonce nonceMined) nonceBlock))
                  (Block.set_nonce (Block.nonce nonceMined) nonceBlock) /\
   substring 0 1 (Block.hash nonceMined) = Block.zeros 1 /\
   (forall n, Block.nonce nonceBlock <= n < Block.nonce nonceMined ->
    substring 0 1 (@Block.calculateHash reverseCrypto (Block.set_nonce n nonceBlock))
    <> Block.zeros 1)).
Proof.
  split; [vm_compute; reflexivity|].
  apply (@mineBlock_first_nonce reverseCrypto 1 20 nonceBlock nonceMined);
    vm_compute; reflexivity.
Defined.

Lemma reachable_isChainValid_witness :
  @reachable identityCrypto minedState [VStr "pubk"] /\
  Blockchain.isChainValid minedState = Ok true /\
  Forall (fun tx => Transaction.isValid tx = Ok true) (Blockchain.pendingTransactions minedState).
Proof.
  assert (Hr : @reachable identityCrypto minedState [VStr "pubk"]).
  { apply (@reachable_mine identityCrypto Blockchain.new minedState [] (VStr "pubk") 1 2 1).
    - apply reachable_new.
    - vm_compute; reflexivity. }
  split; [exact Hr|].
  exact (@reachable_isChainValid identityCrypto minedState [VStr "pubk"] Hr).
Defined.

Lemma main_output_witness :
  snd (main "k" 1 2 3 4 5 6 7 8 1) =
    Ok [EmptyString; "Balance of myWalletAddress is 150"; "Balance of address2 is 100";
        "Balance of address3 is 50"; EmptyString; "Blockchain valid? Yes"] /\
  (snd (main "k" 1 2 3 4 5 6 7 8 1) = OutOfFuel \/
   snd (main "k" 1 2 3 4 5 6 7 8 1) =
     Ok [EmptyString; "Balance of myWalletAddress is 150"; "Balance of address2 is 100";
         "Balance of address3 is 50"; EmptyString; "Blockchain valid? Yes"]).
Proof.
  split; [vm_compute; reflexivity|].
  apply (main_output "k" 1 2 3 4 5 6 7 8 1).
  - discriminate.
  - discriminate.
  - discriminate.
  - intros m; simpl; apply String.eqb_refl.
  - intros m; simpl; discriminate.
Defined.
